(** * Catan board generator: a shallow embedding of [board_generator.py]

    The development follows the class [CatanBoardGenerator]: the static
    tables (adjacency, pip map, edge positions), the two hard constraints,
    the three penalties of the score, the candidate sampler and the
    best-of-N loop of [generate_board]; then the values that
    [display_statistics] and [main] compute and the text of
    [display_board_visual].

    Conventions.
    - Python [int] is [Z]; a hex tile (a dict with the keys [position],
      [terrain], [number]) is the record [Hex]; a board is a [list Hex].
    - Python [float] is a double. Where the value of a score is stated
      (its formula, its sign, whether it is 0) it is read as a real number
      ([R]), as the specification reads it. Where the program compares two
      scores, in [generate_board], it is the primitive [float] of Rocq, an
      IEEE 754 binary64 number, and the two operations that differ from
      one Python to the next (the built-in [sum] over floats, [x ** 2])
      are the fields of a [Platform].
    - A call that can raise returns a [result]; the exception is named by
      its Python class.
    - [random.shuffle] is a parameter: any function that threads a random
      state and returns a permutation of its argument. *)

From Stdlib Require Import Floats.
From Stdlib Require Import String.
From Stdlib Require Import List ZArith Bool Lia Permutation.
From Stdlib Require Import Reals Lra.
From Stdlib Require Import Ascii DecimalString.
Import ListNotations.

Open Scope string_scope.
Open Scope list_scope.
Open Scope Z_scope.

(** ** Python values *)

Definition exn := string.

Definition AttributeError : exn := "AttributeError".
Definition IndexError : exn := "IndexError".

Inductive result (A : Type) : Type :=
| Ok (a : A)
| Raise (e : exn).

Arguments Ok {A} a.
Arguments Raise {A} e.

Definition rbind {A B} (m : result A) (k : A -> result B) : result B :=
  match m with
  | Ok a => k a
  | Raise e => Raise e
  end.

Declare Scope result_scope.
Delimit Scope result_scope with result.
Notation "'let*' x ':=' m 'in' k" := (rbind m (fun x => k))
  (at level 10, x name, m at level 100, k at level 200) : result_scope.
Open Scope result_scope.

(** [for x in l: s = body(s, x)], where the body may raise. *)
Fixpoint for_each {A S} (l : list A) (s : S) (body : S -> A -> result S)
  : result S :=
  match l with
  | [] => Ok s
  | x :: l' => let* s' := body s x in for_each l' s' body
  end.

(** [len(l)] *)
Definition len {A} (l : list A) : Z := Z.of_nat (List.length l).

(** [l[i]]: a negative index counts from the end, an index out of range
    raises [IndexError]. *)
Definition getitem {A} (l : list A) (i : Z) : result A :=
  let j := if i <? 0 then i + len l else i in
  if j <? 0 then Raise IndexError
  else match nth_error l (Z.to_nat j) with
       | Some x => Ok x
       | None => Raise IndexError
       end.

(** [enumerate(l, start)] and [enumerate(l)] *)
Fixpoint enumerate_from {A} (start : Z) (l : list A) : list (Z * A) :=
  match l with
  | [] => []
  | x :: l' => (start, x) :: enumerate_from (start + 1) l'
  end.

Definition enumerate {A} (l : list A) : list (Z * A) := enumerate_from 0 l.

(** [x in l] for a list or set of integers *)
Definition mem (x : Z) (l : list Z) : bool := existsb (Z.eqb x) l.

(** A dict in insertion order. *)
Section Dict.
Context {K V : Type} (keq : K -> K -> bool).

(** [d.get(k, default)] *)
Fixpoint dict_get (d : list (K * V)) (k : K) (default : V) : V :=
  match d with
  | [] => default
  | (k', v) :: d' => if keq k k' then v else dict_get d' k default
  end.

(** [d[k] = v]: an existing key keeps its place, a new key goes last. *)
Fixpoint dict_set (d : list (K * V)) (k : K) (v : V) : list (K * V) :=
  match d with
  | [] => [(k, v)]
  | (k', v') :: d' =>
      if keq k k' then (k', v) :: d' else (k', v') :: dict_set d' k v
  end.
End Dict.

(** ** Data model *)

Record Hex := mkHex {
  position : Z;
  terrain : string;
  number : option Z
}.

Definition Board := list Hex.

Definition Desert : string := "Desert".

(** ** Static tables *)

Definition adjacency : list (Z * list Z) :=
  [ (0, [1; 3; 4]);
    (1, [0; 2; 4; 5]);
    (2, [1; 5; 6]);
    (3, [0; 4; 7; 8]);
    (4, [0; 1; 3; 5; 8; 9]);
    (5, [1; 2; 4; 6; 9; 10]);
    (6, [2; 5; 10; 11]);
    (7, [3; 8; 12]);
    (8, [3; 4; 7; 9; 12; 13]);
    (9, [4; 5; 8; 10; 13; 14]);
    (10, [5; 6; 9; 11; 14; 15]);
    (11, [6; 10; 15]);
    (12, [7; 8; 13; 16]);
    (13, [8; 9; 12; 14; 16; 17]);
    (14, [9; 10; 13; 15; 17; 18]);
    (15, [10; 11; 14; 18]);
    (16, [12; 13; 17]);
    (17, [13; 14; 16; 18]);
    (18, [14; 15; 17]) ].

(** [self.adjacency.get(pos, [])] *)
Definition neighbors (pos : Z) : list Z := dict_get Z.eqb adjacency pos [].

Definition pip_map : list (Z * Z) :=
  [ (2, 1); (3, 2); (4, 3); (5, 4); (6, 5);
    (8, 5); (9, 4); (10, 3); (11, 2); (12, 1) ].

Definition get_pip_count (number : option Z) : Z :=
  match number with
  | None => 0
  | Some n => dict_get Z.eqb pip_map n 0
  end.

Definition edge_positions : list Z := [0; 1; 2; 3; 6; 7; 11; 12; 16; 17; 18].

(** ** Hard constraints *)

(** [h['number'] in [6, 8]] *)
Definition number_is_high (n : option Z) : bool :=
  match n with
  | Some v => mem v [6; 8]
  | None => false
  end.

(** The set comprehension of [_check_adjacent_high_numbers]; only membership
    and iteration over all elements are used, so a list stands for the set. *)
Definition high_value_positions (board : Board) : list Z :=
  map position (filter (fun h => number_is_high (number h)) board).

Definition check_adjacent_high_numbers (board : Board) : bool :=
  let hv := high_value_positions board in
  forallb (fun pos =>
             negb (existsb (fun adj_pos => mem adj_pos hv) (neighbors pos)))
          hv.

Definition check_desert_placement (board : Board) : bool :=
  forallb (fun hex_tile =>
             negb ((terrain hex_tile =? Desert)%string
                   && mem (position hex_tile) edge_positions))
          board.

(** ** Scoring *)

(** Truth value of [h['number']]: [None] and [0] are false. *)
Definition truthy_number (n : option Z) : bool :=
  match n with
  | Some v => negb (v =? 0)
  | None => false
  end.

Definition score_terrain_clustering (board : Board) : result Z :=
  for_each (enumerate board) 0 (fun cluster_penalty '(pos, hex_tile) =>
    if (terrain hex_tile =? Desert)%string then Ok cluster_penalty
    else
      let* same_terrain_count :=
        for_each (neighbors pos) 0 (fun count adj_pos =>
          if adj_pos <? len board then
            let* adj := getitem board adj_pos in
            Ok (if (terrain adj =? terrain hex_tile)%string
                then count + 1 else count)
          else Ok count) in
      Ok (if 2 <=? same_terrain_count
          then cluster_penalty + same_terrain_count
          else cluster_penalty)).

(** The dict [resource_pips] of [_score_resource_balance], in insertion
    order. *)
Definition resource_pips (board : Board) : list (string * Z) :=
  fold_left (fun pips hex_tile =>
               let terrain := terrain hex_tile in
               if (terrain =? Desert)%string then pips
               else
                 let pip_count := get_pip_count (number hex_tile) in
                 dict_set String.eqb pips terrain
                          (dict_get String.eqb pips terrain 0 + pip_count))
            board [].

(** [sum(l)] for integers and for floats *)
Definition zsum (l : list Z) : Z := fold_left Z.add l 0.
Definition rsum (l : list R) : R := fold_left Rplus l 0%R.

Definition score_resource_balance (board : Board) : R :=
  let values := map snd (resource_pips board) in
  match values with
  | [] => 0%R
  | _ :: _ =>
      let n := IZR (len values) in
      let avg_pips := (IZR (zsum values) / n)%R in
      let variance :=
        (rsum (map (fun v => (IZR v - avg_pips) ^ 2) values) / n)%R in
      sqrt variance
  end.

Definition score_pip_adjacency (board : Board) : result R :=
  let* penalty :=
    for_each (enumerate board) 0 (fun penalty '(pos, hex_tile) =>
      match number hex_tile with
      | None => Ok penalty
      | Some _ =>
          let pip_count := get_pip_count (number hex_tile) in
          if pip_count <? 4 then Ok penalty
          else
            for_each (neighbors pos) penalty (fun penalty adj_pos =>
              if adj_pos <? len board then
                let* adj := getitem board adj_pos in
                if truthy_number (number adj) then
                  let adj_pip := get_pip_count (number adj) in
                  Ok (if 4 <=? adj_pip then penalty + 1 else penalty)
                else Ok penalty
              else Ok penalty)
      end) in
  Ok (IZR penalty / 2)%R.

Definition score_board (board : Board) : result R :=
  let score := 0%R in
  let* clustering := score_terrain_clustering board in
  let score := (score + IZR clustering * 10)%R in
  let score := (score + score_resource_balance board * 5)%R in
  let* adjacency_penalty := score_pip_adjacency board in
  let score := (score + adjacency_penalty * 3)%R in
  Ok score.

(** ** Scoring in double precision

    The score as the program computes it. [+], [-], [*], [/], [math.sqrt]
    and [<] on floats are the correctly rounded operations of IEEE 754,
    those of the primitive [float]. Two operations are not fixed by the
    language: the built-in [sum] over floats (CPython adds from left to
    right up to version 3.11 and keeps a compensation term from 3.12 on)
    and [x ** 2] (the [pow] of the C library, which need not be correctly
    rounded). A [Platform] gives the two; what is proved of
    [generate_board] is proved for every platform.

    Two exceptions of Python have no place in these definitions, because
    no board reaches them: [x ** 2] raises [OverflowError] when the square
    overflows, which takes a pip total beyond 10^154, and [math.sqrt]
    raises [ValueError] on a negative argument, where its argument is a
    sum of squares divided by a count. *)

Class Platform := {
  float_sum : list float -> float;
  float_pow2 : float -> float
}.

(** The conversion of an [int] that meets a [float] in an operation: the
    nearest double, ties to even. (From 2^1024 on Python raises
    [OverflowError] where this gives [inf]; the integers converted below
    are at most 60 times the length of the board.) *)
Definition float_of_int (n : Z) : float :=
  SF2Prim (binary_normalize prec emax n 0 false).

Module Double.
Section Score.
Context {P : Platform}.

(** [sum(...) / len(...)] divides two integers: below 2^53 the quotient of
    the two doubles is the correctly rounded quotient Python returns. The
    [0] of the empty case is the integer 0: [0 * 5] and then [score + 0]
    give the values of [0.0 * 5.0] and [score + 0.0]. *)
Definition score_resource_balance (board : Board) : float :=
  let values := map snd (resource_pips board) in
  match values with
  | [] => float_of_int 0
  | _ :: _ =>
      let n := float_of_int (len values) in
      let avg_pips := (float_of_int (zsum values) / n)%float in
      let variance :=
        (float_sum (map (fun v => float_pow2 (float_of_int v - avg_pips))
                        values) / n)%float in
      PrimFloat.sqrt variance
  end.

Definition score_pip_adjacency (board : Board) : result float :=
  let* penalty :=
    for_each (enumerate board) 0 (fun penalty '(pos, hex_tile) =>
      match number hex_tile with
      | None => Ok penalty
      | Some _ =>
          let pip_count := get_pip_count (number hex_tile) in
          if pip_count <? 4 then Ok penalty
          else
            for_each (neighbors pos) penalty (fun penalty adj_pos =>
              if adj_pos <? len board then
                let* adj := getitem board adj_pos in
                if truthy_number (number adj) then
                  let adj_pip := get_pip_count (number adj) in
                  Ok (if 4 <=? adj_pip then penalty + 1 else penalty)
                else Ok penalty
              else Ok penalty)
      end) in
  Ok (float_of_int penalty / float_of_int 2)%float.

(** [_score_terrain_clustering] returns an integer: [* 10] multiplies
    integers and [score +=] converts the product. *)
Definition score_board (board : Board) : result float :=
  let score := 0%float in
  let* clustering := score_terrain_clustering board in
  let score := (score + float_of_int (clustering * 10))%float in
  let score :=
    (score + score_resource_balance board * float_of_int 5)%float in
  let* adjacency_penalty := score_pip_adjacency board in
  let score := (score + adjacency_penalty * float_of_int 3)%float in
  Ok score.

End Score.
End Double.

(** ** The generator object *)

(** The attributes [__init__] may assign. [None] is an attribute that was
    never assigned: reading it raises [AttributeError]. *)
Record Generator := mkGenerator {
  expansion : string;
  terrains : option (list string);
  numbers : option (list Z)
}.

Definition getattr {A} (a : option A) : result A :=
  match a with
  | Some v => Ok v
  | None => Raise AttributeError
  end.

Definition base_terrains : list string :=
  [ "Forest"; "Forest"; "Forest"; "Forest";
    "Pasture"; "Pasture"; "Pasture"; "Pasture";
    "Field"; "Field"; "Field"; "Field";
    "Hill"; "Hill"; "Hill";
    "Mountain"; "Mountain"; "Mountain";
    "Desert" ].

Definition base_numbers : list Z :=
  [2; 3; 3; 4; 4; 5; 5; 6; 6; 8; 8; 9; 9; 10; 10; 11; 11; 12].

Definition extension_terrains : list string :=
  [ "Forest"; "Forest"; "Forest"; "Forest"; "Forest"; "Forest";
    "Pasture"; "Pasture"; "Pasture"; "Pasture"; "Pasture"; "Pasture";
    "Field"; "Field"; "Field"; "Field"; "Field"; "Field";
    "Hill"; "Hill"; "Hill"; "Hill"; "Hill";
    "Mountain"; "Mountain"; "Mountain"; "Mountain"; "Mountain";
    "Desert"; "Desert" ].

Definition extension_numbers : list Z :=
  [ 2; 2; 3; 3; 3; 4; 4; 4; 5; 5; 5; 6; 6; 6;
    8; 8; 8; 9; 9; 9; 10; 10; 10; 11; 11; 11; 12; 12 ].

Definition custom_terrains : list string :=
  [ "Forest"; "Forest"; "Forest";
    "Pasture"; "Pasture"; "Pasture";
    "Field"; "Field"; "Field";
    "Hill"; "Hill"; "Hill";
    "Mountain"; "Mountain"; "Mountain";
    "Gold"; "Gold"; "Gold";
    "Desert" ].

Definition custom_numbers : list Z :=
  [2; 3; 3; 4; 4; 5; 5; 6; 6; 8; 8; 9; 9; 10; 10; 11; 11; 12].

(** [setup_distribution]: the two attributes it leaves on [self]. The chain
    of [if]/[elif] has no [else]: another name assigns nothing. *)
Definition setup_distribution (expansion : string)
  : option (list string) * option (list Z) :=
  if (expansion =? "base")%string then
    (Some base_terrains, Some base_numbers)
  else if (expansion =? "5-6player")%string then
    (Some extension_terrains, Some extension_numbers)
  else if (expansion =? "custom")%string then
    (Some custom_terrains, Some custom_numbers)
  else (None, None).

(** [CatanBoardGenerator(expansion)], that is [__init__]. *)
Definition CatanBoardGenerator (expansion : string) : Generator :=
  let '(terrains, numbers) := setup_distribution expansion in
  mkGenerator expansion terrains numbers.

(** The names [setup_distribution] knows. *)
Definition profile_names : list string := ["base"; "5-6player"; "custom"].

(** One iteration of [for i, terrain in enumerate(shuffled_terrains)], on
    the state [(board, number_index)]. *)
Definition place_hex (shuffled_numbers : list Z)
  (st : Board * Z) (it : Z * string) : result (Board * Z) :=
  let '(board, number_index) := st in
  let '(i, terrain) := it in
  let* n := (if (terrain =? Desert)%string then Ok None
             else let* v := getitem shuffled_numbers number_index in
                  Ok (Some v)) in
  let hex_tile := mkHex i terrain n in
  let number_index :=
    if negb (terrain =? Desert)%string
    then number_index + 1 else number_index in
  Ok (board ++ [hex_tile], number_index).

Section Generation.

Context {P : Platform}.

(** The state of the module [random] and [random.shuffle] on it. *)
Variable G : Type.
Variable shuffle : forall A : Type, list A -> G -> list A * G.

Definition generate_candidate_board (self : Generator) (g : G)
  : result (Board * G) :=
  let* ts := getattr (terrains self) in
  let '(shuffled_terrains, g) := shuffle _ ts g in
  let* ns := getattr (numbers self) in
  let '(shuffled_numbers, g) := shuffle _ ns g in
  let* st := for_each (enumerate shuffled_terrains) ([], 0)
                      (place_hex shuffled_numbers) in
  Ok (fst st, g).

(** The [for attempt in range(max_attempts)] loop with [n] iterations left;
    [continue] goes to the next iteration, [break] returns. The two
    comparisons are those of doubles: [score < 50] compares a float with
    the integer 50, which is a double. *)
Fixpoint attempts (self : Generator) (n : nat)
  (best_board : option Board) (best_score : float) (g : G)
  : result (option Board * float * G) :=
  match n with
  | O => Ok (best_board, best_score, g)
  | S n' =>
      let* c := generate_candidate_board self g in
      let '(board, g) := c in
      if negb (check_adjacent_high_numbers board) then
        attempts self n' best_board best_score g
      else if negb (check_desert_placement board) then
        attempts self n' best_board best_score g
      else
        let* score := Double.score_board board in
        if (score <? best_score)%float then
          if (score <? 50)%float then Ok (Some board, score, g)
          else attempts self n' (Some board) score g
        else attempts self n' best_board best_score g
  end.

(** [best_board if best_board else self._generate_candidate_board()]:
    [None] and the empty list are false. *)
Definition generate_board (self : Generator) (max_attempts : Z) (g : G)
  : result (Board * G) :=
  let* r := attempts self (Z.to_nat max_attempts) None infinity g in
  let '(best_board, _, g) := r in
  match best_board with
  | Some (hex_tile :: rest) => Ok (hex_tile :: rest, g)
  | _ => generate_candidate_board self g
  end.

(** [CatanBoardGenerator(expansion).generate_board(max_attempts)], as [main]
    calls it. *)
Definition generate (expansion : string) (max_attempts : Z) (g : G)
  : result (Board * G) :=
  generate_board (CatanBoardGenerator expansion) max_attempts g.

(** The boards of [k] successive calls of the sampler. *)
Fixpoint samples (self : Generator) (k : nat) (g : G)
  : result (list Board * G) :=
  match k with
  | O => Ok ([], g)
  | S k' =>
      let* c := generate_candidate_board self g in
      let '(board, g) := c in
      let* r := samples self k' g in
      let '(boards, g) := r in
      Ok (board :: boards, g)
  end.

End Generation.

Arguments generate_candidate_board {G} shuffle self g.
Arguments attempts {P G} shuffle self n best_board best_score g.
Arguments generate_board {P G} shuffle self max_attempts g.
Arguments generate {P G} shuffle expansion max_attempts g.
Arguments samples {G} shuffle self k g.

(** ** A replayable random source

    The random state is the list of the permutations still to be drawn; a
    permutation is coded by the place each element is inserted at. *)

Definition insert_at {A} (k : nat) (x : A) (l : list A) : list A :=
  firstn k l ++ x :: skipn k l.

Fixpoint weave {A} (code : list nat) (l : list A) : list A :=
  match l with
  | [] => []
  | x :: l' => insert_at (hd 0%nat code) x (weave (tl code) l')
  end.

Definition replay (A : Type) (l : list A) (g : list (list nat))
  : list A * list (list nat) :=
  (weave (hd [] g) l, tl g).

(** *** Two runs of the sampler

    [pool_order_board] is the base pools laid out as they are listed;
    [example_board] has the Desert in the middle and the 6s and 8s in the
    four corners. [example_rng] draws the first and then the second. *)

Definition pool_order_board : Board :=
  [ mkHex 0 "Forest" (Some 2);
    mkHex 1 "Forest" (Some 3);
    mkHex 2 "Forest" (Some 3);
    mkHex 3 "Forest" (Some 4);
    mkHex 4 "Pasture" (Some 4);
    mkHex 5 "Pasture" (Some 5);
    mkHex 6 "Pasture" (Some 5);
    mkHex 7 "Pasture" (Some 6);
    mkHex 8 "Field" (Some 6);
    mkHex 9 "Field" (Some 8);
    mkHex 10 "Field" (Some 8);
    mkHex 11 "Field" (Some 9);
    mkHex 12 "Hill" (Some 9);
    mkHex 13 "Hill" (Some 10);
    mkHex 14 "Hill" (Some 10);
    mkHex 15 "Mountain" (Some 11);
    mkHex 16 "Mountain" (Some 11);
    mkHex 17 "Mountain" (Some 12);
    mkHex 18 "Desert" None ].

Definition example_board : Board :=
  [ mkHex 0 "Forest" (Some 6);
    mkHex 1 "Pasture" (Some 2);
    mkHex 2 "Field" (Some 8);
    mkHex 3 "Hill" (Some 3);
    mkHex 4 "Mountain" (Some 3);
    mkHex 5 "Forest" (Some 4);
    mkHex 6 "Pasture" (Some 4);
    mkHex 7 "Field" (Some 5);
    mkHex 8 "Hill" (Some 5);
    mkHex 9 "Desert" None;
    mkHex 10 "Mountain" (Some 9);
    mkHex 11 "Forest" (Some 9);
    mkHex 12 "Pasture" (Some 10);
    mkHex 13 "Field" (Some 10);
    mkHex 14 "Hill" (Some 11);
    mkHex 15 "Mountain" (Some 11);
    mkHex 16 "Forest" (Some 6);
    mkHex 17 "Pasture" (Some 12);
    mkHex 18 "Field" (Some 8) ].

Definition example_rng : list (list nat) :=
  [ []; [];
    [0; 4; 9; 13; 0; 3; 7; 10; 0; 2; 5; 7; 0; 1; 3; 0; 1; 1; 0];
    [1; 2; 2; 2; 2; 2; 2; 0; 7; 0; 7; 0; 0; 0; 0; 0; 0; 0] ]%nat.

(** *** Two small boards *)

Definition three_forests : Board :=
  [ mkHex 0 "Forest" (Some 6); mkHex 1 "Forest" (Some 8);
    mkHex 2 "Forest" (Some 5) ].

Definition forest_and_hill : Board :=
  [ mkHex 0 "Forest" (Some 6); mkHex 1 "Hill" (Some 2) ].

(** ** The specification's vocabulary

    The definitions of this part follow the words of the specification;
    the theorems below compare them with the code above. *)

(** Sums as the specification's [Σ]. *)
Definition sumZ (l : list Z) : Z := fold_right Z.add 0 l.
Definition sumR (l : list R) : R := fold_right Rplus 0%R l.

(** The hex at position [p], if the board has one there. *)
Definition hex_at (board : Board) (p : Z) : option Hex :=
  if p <? 0 then None else nth_error board (Z.to_nat p).

(** The positions [0 .. N-1] of a board. *)
Definition positions (board : Board) : list Z :=
  map Z.of_nat (seq 0 (List.length board)).

(** The neighbors of [p] that are hexes of the board. *)
Definition neighbors_on (board : Board) (p : Z) : list Z :=
  filter (fun q => match hex_at board q with Some _ => true | None => false end)
         (neighbors p).

Definition terrain_at (board : Board) (p : Z) : option string :=
  option_map terrain (hex_at board p).

Definition pip_at (board : Board) (p : Z) : Z :=
  match hex_at board p with
  | Some h => get_pip_count (number h)
  | None => 0
  end.

(** Count of the same-terrain neighbors of the hex [h] at position [p]. *)
Definition same_terrain_neighbors (board : Board) (p : Z) (h : Hex) : Z :=
  len (filter (fun q => match terrain_at board q with
                        | Some t => (t =? terrain h)%string
                        | None => false
                        end)
              (neighbors p)).

(** clusterPenalty: over the non-Desert hexes with at least two same-terrain
    neighbors, the sum of that count. *)
Definition clusterPenalty (board : Board) : Z :=
  sumZ (map (fun '(p, h) => same_terrain_neighbors board p h)
            (filter (fun '(p, h) =>
                       negb (terrain h =? Desert)%string
                       && (2 <=? same_terrain_neighbors board p h))
                    (enumerate board))).

(** The ordered pairs of adjacent hexes of a board. *)
Definition adjacent_pairs (board : Board) : list (Z * Z) :=
  flat_map (fun p => map (pair p) (neighbors_on board p)) (positions board).

(** pipAdjacencyPenalty: the ordered adjacent pairs with pip weight at least
    4 at both ends, halved. *)
Definition pipAdjacencyPenalty (board : Board) : R :=
  (IZR (len (filter (fun '(p, q) =>
                       (4 <=? pip_at board p) && (4 <=? pip_at board q))
                    (adjacent_pairs board))) / 2)%R.

(** The terrain types of a board other than Desert, each once, in the order
    of their first hex. *)
Definition terrain_types (board : Board) : list string :=
  fold_left (fun types h =>
               if (terrain h =? Desert)%string then types
               else if existsb (String.eqb (terrain h)) types then types
               else (types ++ [terrain h])%list)
            board [].

(** The total pip weight of the hexes of terrain [t]. *)
Definition terrain_pips (board : Board) (t : string) : Z :=
  sumZ (map (fun h => get_pip_count (number h))
            (filter (fun h => (terrain h =? t)%string) board)).

(** Population standard deviation of a non-empty list of totals. *)
Definition pstdev (xs : list Z) : R :=
  let n := IZR (len xs) in
  let mean := (IZR (sumZ xs) / n)%R in
  sqrt (sumR (map (fun x => (IZR x - mean) ^ 2)%R xs) / n).

(** balancePenalty: the deviation of the per-terrain totals; a board with no
    terrain other than Desert has none. *)
Definition balancePenalty (board : Board) : R :=
  match terrain_types board with
  | [] => 0%R
  | types => pstdev (map (terrain_pips board) types)
  end.

(** The hex sits at a position of the 19-hex topology. *)
Definition on_graph (h : Hex) : bool :=
  (0 <=? position h) && (position h <=? 18).

(** Both hard constraints hold. *)
Definition valid (board : Board) : bool :=
  check_adjacent_high_numbers board && check_desert_placement board.

(** The score of a board. *)
Definition score (board : Board) : R :=
  (10 * IZR (clusterPenalty board)
   + 5 * balancePenalty board
   + 3 * pipAdjacencyPenalty board)%R.

(** The number tokens on the hexes that are not Desert, in board order. *)
Definition tokens_on (board : Board) : list Z :=
  flat_map (fun h => if (terrain h =? Desert)%string then []
                     else match number h with
                          | Some n => [n]
                          | None => []
                          end)
           board.

(** A Desert hex carries no number, any other hex carries one. *)
Definition tile_ok (h : Hex) : Prop :=
  if (terrain h =? Desert)%string then number h = None
  else exists n, number h = Some n.

(** How many tiles of a pool take a number. *)
Definition numbered (ts : list string) : Z :=
  len (filter (fun t => negb (t =? Desert)%string) ts).

(** What the loop of [_score_resource_balance] keeps true of its dict. *)
Record pips_invariant (board : Board) : Prop := {
  pips_table :
    resource_pips board
    = map (fun t => (t, terrain_pips board t)) (terrain_types board);
  pips_nodup : NoDup (terrain_types board);
  pips_no_desert : ~ In Desert (terrain_types board);
  pips_complete :
    forall h, In h board -> terrain h <> Desert ->
              In (terrain h) (terrain_types board)
}.

(** The pools of a generator fit: both are set, and there are as many
    numbers as tiles that take one. *)
Definition pools_fit (self : Generator) (ts : list string) (ns : list Z)
  : Prop :=
  terrains self = Some ts /\ numbers self = Some ns /\ numbered ts = len ns.

(** The ordered adjacent pairs with pip weight at least 4 at both ends. *)
Definition high_pip_pairs (board : Board) : list (Z * Z) :=
  filter (fun '(p, q) => (4 <=? pip_at board p) && (4 <=? pip_at board q))
         (adjacent_pairs board).

(** The score in doubles, from the two penalties that are counted in
    integers and the balance. *)
Definition double_score {P : Platform} (board : Board) : float :=
  let cluster := float_of_int (clusterPenalty board * 10) in
  let balance := Double.score_resource_balance board in
  let pairs := float_of_int (len (high_pip_pairs board)) in
  (0 + cluster + balance * float_of_int 5
   + pairs / float_of_int 2 * float_of_int 3)%float.

(** The candidates the loop can record: both hard constraints hold and the
    score is below [float('inf')], as every score is but [inf] and NaN. *)
Definition ranked {P : Platform} (board : Board) : bool :=
  valid board && (double_score board <? infinity)%float.

(** [bb], [bs] are the best of the candidates [cs]: nothing while none is
    ranked, else the first ranked candidate of least score. *)
Definition best_is {P : Platform}
  (cs : list Board) (bb : option Board) (bs : float) : Prop :=
  match bb with
  | None => bs = infinity /\ forall c, In c cs -> ranked c = false
  | Some b =>
      bs = double_score b
      /\ exists i, nth_error cs i = Some b /\ ranked b = true
         /\ forall j c, nth_error cs j = Some c -> ranked c = true ->
              (double_score b <=? double_score c)%float = true
              /\ ((j < i)%nat ->
                  (double_score b <? double_score c)%float = true)
  end.

(** A position of the board that holds a 6 or an 8. *)
Definition high_at (board : Board) (p : Z) : Prop :=
  exists h, In h board /\ position h = p
            /\ (number h = Some 6 \/ number h = Some 8).

(** PipTable.weight as the specification words it: the two-dice table, 0 for
    no token, and no value ([None]: the call fails) for anything else. *)
Definition pipWeight_spec (n : option Z) : option Z :=
  match n with
  | None => Some 0
  | Some 2 | Some 12 => Some 1
  | Some 3 | Some 11 => Some 2
  | Some 4 | Some 10 => Some 3
  | Some 5 | Some 9 => Some 4
  | Some 6 | Some 8 => Some 5
  | Some _ => None
  end.

Definition number_tokens : list Z := [2; 3; 4; 5; 6; 8; 9; 10; 11; 12].

(** The error the specification names for an unknown profile. *)
Definition InvalidConfiguration : exn := "InvalidConfiguration".

(** The profile names as the specification lists them. *)
Definition spec_profile_names : list string :=
  ["base"; "five-six-player"; "custom"].

(** ** Statistics, display rows and [main]

    The parts of [display_statistics], [display_board_visual],
    [display_board] and [main] that compute: what they print is chosen by
    these values. *)

(** The list [violations] of [display_statistics]. *)
Definition statistics_violations (board : Board) : result (list (Z * Z)) :=
  for_each (enumerate board) [] (fun violations '(pos, hex_tile) =>
    if number_is_high (number hex_tile) then
      for_each (neighbors pos) violations (fun violations adj_pos =>
        if adj_pos <? len board then
          let* adj := getitem board adj_pos in
          Ok (if number_is_high (number adj)
              then violations ++ [(pos, adj_pos)] else violations)
        else Ok violations)
    else Ok violations).

(** The list [high_numbers] of [display_statistics], which prints one line
    for each of its hexes. *)
Definition statistics_high_numbers (board : Board) : list Hex :=
  filter (fun h => number_is_high (number h)) board.

(** [desert_positions] and [desert_on_edge] of [display_statistics]. *)
Definition desert_positions (board : Board) : list Z :=
  map position (filter (fun h => (terrain h =? Desert)%string) board).

Definition desert_on_edge (board : Board) : bool :=
  existsb (fun pos => mem pos edge_positions) (desert_positions board).

(** [l[start:stop]] for indices that are not negative: the elements of
    index [start <= i < stop] that exist. *)
Definition slice {A} (l : list A) (start stop : nat) : list A :=
  skipn start (firstn stop l).

(** The list [rows] of [display_board_visual]: a row and its offset. *)
Definition visual_rows (board : Board) : list (list Hex * nat) :=
  [ (slice board 0 3, 6%nat);
    (slice board 3 7, 3%nat);
    (slice board 7 12, 0%nat);
    (slice board 12 16, 3%nat);
    (slice board 16 19, 6%nat) ].

(** The list [rows] of [display_board]. *)
Definition display_rows (board : Board) : list (list Hex) :=
  [ slice board 0 3; slice board 3 7; slice board 7 12;
    slice board 12 16; slice board 16 19 ].

(** *** The text of [display_board_visual]

    The output is the list of the lines printed, each followed by a
    newline. A string is a sequence of characters, one [ascii] each, and
    the text is modelled for ASCII terrain names: on another character
    [str.upper()] follows the Unicode tables and can lengthen the string
    (the sharp s becomes [SS]), and the model gives no output. *)







(** [str(n)] and [f"{n}"] for an integer *)
Definition str (n : Z) : string := NilZero.string_of_int (Z.to_int n).








(** [expansion_map] of [main] and [expansion_map.get(choice, 'base')]. *)
Definition expansion_map : list (string * string) :=
  [ ("1", "base"); ("2", "5-6player"); ("3", "custom"); ("", "base") ].

Definition choose_expansion (choice : string) : string :=
  dict_get String.eqb expansion_map choice "base".

(** [CatanBoardGenerator(expansion=expansion).generate_board()] of [main],
    for the stripped answer [choice] to the first prompt; [max_attempts] is
    the default 1000. *)
Definition main_board {P : Platform} {G}
  (shuffle : forall A : Type, list A -> G -> list A * G)
  (choice : string) (g : G) : result (Board * G) :=
  generate_board shuffle (CatanBoardGenerator (choose_expansion choice)) 1000 g.

(** ** More vocabulary *)

(** The ways to roll [n] with two dice. *)
Definition die : list Z := [1; 2; 3; 4; 5; 6].

Definition two_dice_ways (n : Z) : Z :=
  len (filter (fun '(a, b) => a + b =? n) (list_prod die die)).

(** The position of every hex is its index in the board. *)
Definition indexed (board : Board) : Prop :=
  map position board = positions board.

(** The adjacent pairs of hexes with pip weight at least 4 at both ends,
    each pair once. *)
Definition high_pip_edges (board : Board) : list (Z * Z) :=
  filter (fun '(p, q) =>
            (p <? q) && ((4 <=? pip_at board p) && (4 <=? pip_at board q)))
         (adjacent_pairs board).

(** A board dealt from the pools [ts] and [ns]: one hex per position in
    order, the terrains of [ts], the numbers of [ns] on the hexes other
    than Desert, no number on a Desert. *)
Definition well_dealt (ts : list string) (ns : list Z) (board : Board)
  : Prop :=
  map position board = map Z.of_nat (seq 0 (List.length ts))
  /\ Permutation (map terrain board) ts
  /\ Permutation (tokens_on board) ns
  /\ Forall tile_ok board.

(** The hex of index [p] holds a 6 or an 8. *)
Definition high_number_at (board : Board) (p : Z) : bool :=
  match hex_at board p with
  | Some h => number_is_high (number h)
  | None => false
  end.


(** The per-terrain pip totals of a board. *)
Definition terrain_totals (board : Board) : list Z :=
  map (terrain_pips board) (terrain_types board).

(** ** A platform and four boards

    [left_to_right]: [sum] starts from 0 and adds from left to right, as
    CPython does up to version 3.11, and [x ** 2] is the correctly rounded
    square. The runs computed below are runs on this platform. *)

#[export] Instance left_to_right : Platform := {|
  float_sum := fun xs => fold_left PrimFloat.add xs 0%float;
  float_pow2 := fun x => (x * x)%float
|}.

(** [compensated]: Neumaier's compensated summation, the [sum] of CPython
    from version 3.12 on, with the same square. It is no instance: a run
    on it names it. *)

Definition neumaier_step (st : float * float) (x : float) : float * float :=
  let '(total, c) := st in
  let t := (total + x)%float in
  let c := if (abs x <=? abs total)%float
           then (c + ((total - t) + x))%float
           else (c + ((x - t) + total))%float in
  (t, c).

Definition neumaier_sum (xs : list float) : float :=
  let '(total, c) := fold_left neumaier_step xs (0%float, 0%float) in
  if negb (c =? 0)%float && is_finite c then (total + c)%float else total.

Definition compensated : Platform := {|
  float_sum := neumaier_sum;
  float_pow2 := fun x => (x * x)%float
|}.

(** Two boards of the base game with no cluster and eleven adjacent
    high-pip pairs, whose pip totals, [13; 17; 7; 8; 13] and
    [17; 9; 8; 15; 9] in the order of the dict, have the same deviation:
    as real numbers their scores are equal. [tie_rng] draws the first and
    then the second. *)

Definition tie_first_board : Board :=
  [ mkHex 0 "Forest" (Some 4);
    mkHex 1 "Field" (Some 6);
    mkHex 2 "Forest" (Some 11);
    mkHex 3 "Hill" (Some 5);
    mkHex 4 "Field" (Some 9);
    mkHex 5 "Mountain" (Some 5);
    mkHex 6 "Forest" (Some 6);
    mkHex 7 "Field" (Some 8);
    mkHex 8 "Forest" (Some 10);
    mkHex 9 "Pasture" (Some 8);
    mkHex 10 "Pasture" (Some 9);
    mkHex 11 "Hill" (Some 12);
    mkHex 12 "Pasture" (Some 10);
    mkHex 13 "Hill" (Some 3);
    mkHex 14 "Field" (Some 4);
    mkHex 15 "Desert" None;
    mkHex 16 "Pasture" (Some 2);
    mkHex 17 "Mountain" (Some 11);
    mkHex 18 "Mountain" (Some 3) ].

Definition tie_second_board : Board :=
  [ mkHex 0 "Forest" (Some 5);
    mkHex 1 "Forest" (Some 10);
    mkHex 2 "Field" (Some 3);
    mkHex 3 "Hill" (Some 11);
    mkHex 4 "Pasture" (Some 8);
    mkHex 5 "Desert" None;
    mkHex 6 "Field" (Some 12);
    mkHex 7 "Mountain" (Some 2);
    mkHex 8 "Pasture" (Some 4);
    mkHex 9 "Hill" (Some 5);
    mkHex 10 "Mountain" (Some 6);
    mkHex 11 "Mountain" (Some 4);
    mkHex 12 "Field" (Some 3);
    mkHex 13 "Forest" (Some 6);
    mkHex 14 "Field" (Some 9);
    mkHex 15 "Pasture" (Some 9);
    mkHex 16 "Pasture" (Some 10);
    mkHex 17 "Hill" (Some 11);
    mkHex 18 "Forest" (Some 8) ].

Definition tie_rng : list (list nat) :=
  [ [0; 1; 4; 5; 5; 5; 6; 9; 0; 1; 2; 4; 0; 1; 1; 0; 1; 1; 0];
    [15; 13; 15; 0; 12; 2; 3; 0; 2; 2; 3; 1; 2; 1; 2; 0; 1; 0];
    [0; 0; 11; 15; 2; 5; 10; 10; 0; 2; 6; 6; 0; 2; 4; 1; 1; 1; 0];
    [6; 2; 9; 5; 7; 0; 4; 4; 4; 2; 7; 3; 3; 0; 2; 0; 1; 0] ]%nat.

(** Two boards of the 5-6 player game. [fifty_board] has no cluster, two
    adjacent high-pip pairs and the pip totals [24; 18; 30; 6; 10], of
    deviation 8.8: as a real number its score is 5 * 8.8 + 6 = 50.
    [low_board] has the totals [19; 17; 18; 17; 17] and one pair.
    [fifty_rng] draws the first and then the second. *)

Definition fifty_board : Board :=
  [ mkHex 0 "Field" (Some 5);
    mkHex 1 "Forest" (Some 4);
    mkHex 2 "Pasture" (Some 6);
    mkHex 3 "Mountain" (Some 12);
    mkHex 4 "Hill" (Some 3);
    mkHex 5 "Desert" None;
    mkHex 6 "Mountain" (Some 12);
    mkHex 7 "Hill" (Some 11);
    mkHex 8 "Mountain" (Some 2);
    mkHex 9 "Field" (Some 9);
    mkHex 10 "Forest" (Some 4);
    mkHex 11 "Pasture" (Some 6);
    mkHex 12 "Forest" (Some 4);
    mkHex 13 "Desert" None;
    mkHex 14 "Hill" (Some 11);
    mkHex 15 "Field" (Some 5);
    mkHex 16 "Hill" (Some 3);
    mkHex 17 "Forest" (Some 10);
    mkHex 18 "Pasture" (Some 8);
    mkHex 19 "Forest" (Some 10);
    mkHex 20 "Forest" (Some 10);
    mkHex 21 "Field" (Some 5);
    mkHex 22 "Pasture" (Some 8);
    mkHex 23 "Mountain" (Some 2);
    mkHex 24 "Hill" (Some 11);
    mkHex 25 "Field" (Some 9);
    mkHex 26 "Field" (Some 9);
    mkHex 27 "Mountain" (Some 3);
    mkHex 28 "Pasture" (Some 8);
    mkHex 29 "Pasture" (Some 6) ].

Definition low_board : Board :=
  [ mkHex 0 "Pasture" (Some 5);
    mkHex 1 "Field" (Some 6);
    mkHex 2 "Mountain" (Some 10);
    mkHex 3 "Forest" (Some 2);
    mkHex 4 "Desert" None;
    mkHex 5 "Forest" (Some 11);
    mkHex 6 "Pasture" (Some 3);
    mkHex 7 "Field" (Some 12);
    mkHex 8 "Forest" (Some 4);
    mkHex 9 "Hill" (Some 9);
    mkHex 10 "Mountain" (Some 4);
    mkHex 11 "Pasture" (Some 9);
    mkHex 12 "Pasture" (Some 5);
    mkHex 13 "Desert" None;
    mkHex 14 "Forest" (Some 10);
    mkHex 15 "Mountain" (Some 3);
    mkHex 16 "Hill" (Some 2);
    mkHex 17 "Hill" (Some 8);
    mkHex 18 "Pasture" (Some 12);
    mkHex 19 "Hill" (Some 10);
    mkHex 20 "Field" (Some 11);
    mkHex 21 "Field" (Some 8);
    mkHex 22 "Mountain" (Some 8);
    mkHex 23 "Field" (Some 3);
    mkHex 24 "Forest" (Some 4);
    mkHex 25 "Pasture" (Some 5);
    mkHex 26 "Field" (Some 11);
    mkHex 27 "Hill" (Some 9);
    mkHex 28 "Forest" (Some 6);
    mkHex 29 "Mountain" (Some 6) ].

Definition fifty_rng : list (list nat) :=
  [ [1; 9; 10; 14; 15; 15; 1; 8; 12; 13; 18; 18; 0; 6; 8; 9; 11; 11; 1; 3; 5; 5; 6; 0; 1; 1; 2; 2; 0; 0];
    [7; 20; 4; 12; 21; 1; 6; 7; 0; 7; 11; 0; 4; 14; 6; 8; 11; 3; 8; 8; 4; 4; 4; 2; 2; 2; 0; 0];
    [3; 4; 6; 11; 20; 23; 0; 3; 6; 6; 10; 15; 0; 2; 9; 9; 10; 10; 2; 5; 5; 5; 6; 0; 1; 2; 2; 2; 0; 0];
    [3; 13; 4; 11; 17; 5; 6; 15; 0; 6; 13; 0; 14; 14; 6; 9; 9; 3; 3; 8; 0; 2; 3; 0; 2; 2; 0; 0] ]%nat.

(** * Theorems *)

(** ** Helper facts *)

(** [name] is, or is not, one of a closed list of strings. *)
Ltac in_names := simpl; tauto.
Ltac not_in_names :=
  simpl;
  repeat (let H := fresh in intros [H | H]; [discriminate H | revert H]);
  intros [].

Lemma mem_In x l : mem x l = true <-> In x l.
Proof.
  unfold mem. rewrite existsb_exists. split.
  - intros [y [Hy E]]. apply Z.eqb_eq in E. now subst.
  - intros H. exists x. split; [assumption | apply Z.eqb_refl].
Qed.

Lemma mem_false x l : mem x l = false <-> ~ In x l.
Proof.
  rewrite <- mem_In. destruct (mem x l); split; congruence.
Qed.

Lemma position_cases a : 0 <= a <= 18 -> In a (map Z.of_nat (seq 0 19)).
Proof. intros H. simpl. lia. Qed.

Lemma neighbors_symmetric_bool :
  forallb (fun a =>
    forallb (fun b => Bool.eqb (mem b (neighbors a)) (mem a (neighbors b)))
            (map Z.of_nat (seq 0 19)))
    (map Z.of_nat (seq 0 19)) = true.
Proof. vm_compute. reflexivity. Qed.

(** ** Adjacency graph *)

(** C9: the 19-position adjacency graph is symmetric: for positions [a] and
    [b] in 0..18, [b] is a neighbor of [a] if and only if [a] is a neighbor
    of [b]. *)
Theorem adjacency_symmetric (a b : Z) :
  0 <= a <= 18 -> 0 <= b <= 18 ->
  (In b (neighbors a) <-> In a (neighbors b)).
Proof.
  intros Ha Hb.
  pose proof neighbors_symmetric_bool as S.
  rewrite forallb_forall in S.
  specialize (S a (position_cases a Ha)).
  rewrite forallb_forall in S.
  specialize (S b (position_cases b Hb)).
  apply eqb_prop in S.
  rewrite <- !mem_In. rewrite S. tauto.
Qed.

Lemma adjacency_symmetric_witness :
  (0 <= 4 <= 18) /\ (0 <= 9 <= 18)
  /\ (In 9 (neighbors 4) <-> In 4 (neighbors 9)).
Proof.
  split; [lia | split; [lia | apply (adjacency_symmetric 4 9); lia]].
Defined.

(** ** Pip table *)

(** C8 (as stated, refuted): the specification has the weight of a number
    outside the table fail; [get_pip_count] returns 0 for 7 and for 13. *)
Lemma get_pip_count_other_counterexample :
  get_pip_count (Some 7) = 0 /\ pipWeight_spec (Some 7) = None
  /\ get_pip_count (Some 13) = 0 /\ pipWeight_spec (Some 13) = None.
Proof. repeat split. Qed.

(** C8 (amended): [get_pip_count] is the two-dice table on the number
    tokens, 0 for [None], and 0 for every other integer; on the tokens and
    on [None] it is the specification's weight. *)
Theorem get_pip_count_table :
  get_pip_count (Some 2) = 1 /\ get_pip_count (Some 12) = 1
  /\ get_pip_count (Some 3) = 2 /\ get_pip_count (Some 11) = 2
  /\ get_pip_count (Some 4) = 3 /\ get_pip_count (Some 10) = 3
  /\ get_pip_count (Some 5) = 4 /\ get_pip_count (Some 9) = 4
  /\ get_pip_count (Some 6) = 5 /\ get_pip_count (Some 8) = 5
  /\ get_pip_count None = 0
  /\ (forall n, ~ In n number_tokens -> get_pip_count (Some n) = 0)
  /\ (forall n, In n number_tokens ->
        pipWeight_spec (Some n) = Some (get_pip_count (Some n))).
Proof.
  repeat (split; [reflexivity |]).
  split.
  - intros n Hn. unfold get_pip_count, pip_map, dict_get.
    repeat match goal with
    | |- context [n =? ?k] =>
        destruct (Z.eqb_spec n k);
        [ exfalso; apply Hn; subst; simpl; tauto | ]
    end.
    reflexivity.
  - intros n Hn. simpl in Hn.
    repeat (destruct Hn as [<- | Hn]; [reflexivity |]). contradiction.
Qed.

Lemma get_pip_count_table_witness :
  ~ In 7 number_tokens /\ get_pip_count (Some 7) = 0
  /\ In 6 number_tokens
  /\ pipWeight_spec (Some 6) = Some (get_pip_count (Some 6)).
Proof.
  pose proof get_pip_count_table as T.
  destruct T as (_ & _ & _ & _ & _ & _ & _ & _ & _ & _ & _ & Hother & Htok).
  assert (H7 : ~ In 7 number_tokens) by (simpl; lia).
  assert (H6 : In 6 number_tokens) by (simpl; lia).
  exact (conj H7 (conj (Hother 7 H7) (conj H6 (Htok 6 H6)))).
Defined.


(** ** Hard constraints *)

Lemma number_is_high_iff n :
  number_is_high n = true <-> n = Some 6 \/ n = Some 8.
Proof.
  destruct n as [v |]; unfold number_is_high.
  - rewrite mem_In. simpl. split.
    + intros [E | [E | []]]; subst; auto.
    + intros [E | E]; inversion E; auto.
  - split; [discriminate | intros [E | E]; discriminate].
Qed.

Lemma high_value_positions_iff board p :
  In p (high_value_positions board) <-> high_at board p.
Proof.
  unfold high_value_positions, high_at. rewrite in_map_iff. split.
  - intros [h [Hp Hin]]. apply filter_In in Hin. destruct Hin as [Hin Hh].
    exists h. rewrite number_is_high_iff in Hh. auto.
  - intros [h [Hin [Hp Hh]]]. exists h. split; [assumption |].
    apply filter_In. split; [assumption |]. now apply number_is_high_iff.
Qed.

Lemma adjacent_high_check (board : Board) :
  check_adjacent_high_numbers board = true <->
  (forall p q, high_at board p -> In q (neighbors p) -> ~ high_at board q).
Proof.
  unfold check_adjacent_high_numbers. rewrite forallb_forall. split.
  - intros H p q Hp Hq Hhq.
    apply high_value_positions_iff in Hp. specialize (H p Hp).
    apply negb_true_iff in H.
    assert (E : existsb (fun adj_pos => mem adj_pos (high_value_positions board))
                        (neighbors p) = true).
    { apply existsb_exists. exists q. split; [assumption |].
      apply mem_In. now apply high_value_positions_iff. }
    congruence.
  - intros H p Hp. apply negb_true_iff.
    destruct (existsb _ (neighbors p)) eqn:E; [| reflexivity].
    apply existsb_exists in E. destruct E as [q [Hq Hm]].
    apply mem_In in Hm. exfalso.
    apply (H p q); try assumption; now apply high_value_positions_iff.
Qed.

(** C4: NoAdjacentHighNumbers succeeds if and only if no position holding a
    6 or an 8 has a neighbor in the adjacency graph that holds a 6 or an 8. *)
Theorem check_adjacent_high_numbers_iff (board : Board) :
  check_adjacent_high_numbers board = true <->
  ~ (exists p q, high_at board p /\ In q (neighbors p) /\ high_at board q).
Proof.
  rewrite adjacent_high_check. split.
  - intros H (p & q & Hp & Hq & Hhq). exact (H p q Hp Hq Hhq).
  - intros H p q Hp Hq Hhq. apply H. exists p, q. auto.
Qed.

(** C5: DesertInterior succeeds if and only if no Desert hex sits at a
    position of the edge set {0,1,2,3,6,7,11,12,16,17,18}. *)
Theorem check_desert_placement_iff (board : Board) :
  check_desert_placement board = true <->
  (forall h, In h board -> terrain h = Desert ->
             ~ In (position h) [0; 1; 2; 3; 6; 7; 11; 12; 16; 17; 18]).
Proof.
  unfold check_desert_placement. rewrite forallb_forall.
  change [0; 1; 2; 3; 6; 7; 11; 12; 16; 17; 18] with edge_positions.
  split.
  - intros H h Hin Ht He. specialize (H h Hin).
    apply negb_true_iff, andb_false_iff in H. destruct H as [H | H].
    + apply String.eqb_neq in H. contradiction.
    + apply mem_false in H. contradiction.
  - intros H h Hin. apply negb_true_iff, andb_false_iff.
    destruct (String.eqb_spec (terrain h) Desert) as [E | E].
    + right. apply mem_false. now apply H.
    + now left.
Qed.

(** The edge set holds the positions with fewer than six neighbors, but
    for 15, which has four and is not in it. *)
Remark edge_positions_neighbors :
  (forall p, In p edge_positions -> (List.length (neighbors p) < 6)%nat)
  /\ List.length (neighbors 15) = 4%nat /\ ~ In 15 edge_positions
  /\ (forall p, 0 <= p <= 18 -> (List.length (neighbors p) < 6)%nat ->
                 p <> 15 -> In p edge_positions).
Proof.
  split; [| split; [reflexivity | split]].
  - intros p Hp. unfold edge_positions in Hp. simpl in Hp.
    repeat (destruct Hp as [<- | Hp]; [simpl; lia |]). contradiction.
  - unfold edge_positions. simpl. lia.
  - intros p Hp Hn H15. apply position_cases in Hp. simpl in Hp.
    repeat (destruct Hp as [<- | Hp];
            [first [ unfold edge_positions; simpl; tauto
                   | simpl in Hn; lia
                   | congruence ] |]).
    contradiction.
Qed.

(** ** Loops, sums and indexing *)

Lemma for_each_ok {A S} (f : S -> A -> S) (body : S -> A -> result S) l :
  (forall s x, In x l -> body s x = Ok (f s x)) ->
  forall s, for_each l s body = Ok (fold_left f l s).
Proof.
  induction l as [| x l IH]; intros H s; simpl.
  - reflexivity.
  - rewrite H by (now left). simpl. apply IH.
    intros s' y Hy. apply H. now right.
Qed.

Lemma len_nonneg {A} (l : list A) : 0 <= len l.
Proof. unfold len. lia. Qed.

Lemma len_cons {A} (x : A) l : len (x :: l) = 1 + len l.
Proof. unfold len. simpl List.length. lia. Qed.

Lemma fold_count {A} (P : A -> bool) l :
  forall c, fold_left (fun c x => if P x then c + 1 else c) l c
            = c + len (filter P l).
Proof.
  induction l as [| x l IH]; intros c; simpl.
  - unfold len. simpl. lia.
  - rewrite IH. destruct (P x); [rewrite len_cons |]; lia.
Qed.

Lemma fold_add {A} (w : A -> Z) l :
  forall a, fold_left (fun a x => a + w x) l a = a + sumZ (map w l).
Proof.
  induction l as [| x l IH]; intros a; simpl.
  - lia.
  - rewrite IH. lia.
Qed.

Lemma sumZ_filter {A} (P : A -> bool) (w : A -> Z) l :
  sumZ (map (fun x => if P x then w x else 0) l) = sumZ (map w (filter P l)).
Proof.
  induction l as [| x l IH]; simpl; [reflexivity |].
  destruct (P x); simpl; lia.
Qed.


Lemma zsum_sumZ l : zsum l = sumZ l.
Proof.
  unfold zsum. change Z.add with (fun a x => a + (fun y : Z => y) x).
  rewrite fold_add, map_id. lia.
Qed.

Lemma neighbors_range p q : In q (neighbors p) -> 0 <= q <= 18 /\ 0 <= p <= 18.
Proof.
  unfold neighbors, adjacency, dict_get.
  repeat match goal with
  | |- context [p =? ?k] =>
      destruct (Z.eqb_spec p k); [subst; simpl; lia |]
  end.
  intros [].
Qed.

Lemma neighbors_outside p : ~ 0 <= p <= 18 -> neighbors p = [].
Proof.
  intros H. destruct (neighbors p) as [| q l] eqn:E; [reflexivity |].
  exfalso. apply H. apply (neighbors_range p q). rewrite E. now left.
Qed.

(** Under the guard [adj_pos < len(board)], and for an index that is not
    negative, [board[adj_pos]] is the hex at that position. *)
Lemma getitem_guarded (board : Board) q :
  0 <= q ->
  if q <? len board
  then exists h, getitem board q = Ok h /\ hex_at board q = Some h
  else hex_at board q = None.
Proof.
  intros Hq. unfold getitem, hex_at. cbv zeta.
  assert (E0 : (q <? 0) = false) by (apply Z.ltb_ge; lia).
  rewrite !E0.
  destruct (Z.ltb_spec q (len board)) as [Hlt | Hge].
  - destruct (nth_error board (Z.to_nat q)) as [h |] eqn:E.
    + exists h. auto.
    + apply nth_error_None in E. unfold len in Hlt. lia.
  - apply nth_error_None. unfold len in Hge. lia.
Qed.

Lemma enumerate_from_fst {A} (l : list A) :
  forall start,
    map fst (enumerate_from start l)
    = map (fun i => start + Z.of_nat i) (seq 0 (List.length l)).
Proof.
  induction l as [| x l IH]; intros start; simpl; [reflexivity |].
  f_equal; [lia |]. rewrite IH, <- seq_shift, map_map.
  apply map_ext. intros i. lia.
Qed.

Lemma enumerate_fst (board : Board) :
  map fst (enumerate board) = positions board.
Proof.
  unfold enumerate, positions. rewrite enumerate_from_fst.
  apply map_ext. intros i. lia.
Qed.

Lemma enumerate_from_nth {A} (l : list A) :
  forall start p x,
    In (p, x) (enumerate_from start l) ->
    start <= p /\ nth_error l (Z.to_nat (p - start)) = Some x.
Proof.
  induction l as [| y l IH]; intros start p x H; simpl in H; [contradiction |].
  destruct H as [H | H].
  - inversion H; subst. rewrite Z.sub_diag. split; [lia | reflexivity].
  - apply IH in H. destruct H as [Hle Hn]. split; [lia |].
    replace (Z.to_nat (p - start)) with (S (Z.to_nat (p - (start + 1))))
      by lia.
    exact Hn.
Qed.

Lemma enumerate_hex_at (board : Board) p h :
  In (p, h) (enumerate board) -> hex_at board p = Some h.
Proof.
  intros H. apply enumerate_from_nth in H. destruct H as [Hle Hn].
  unfold hex_at. destruct (Z.ltb_spec p 0); [lia |].
  now rewrite Z.sub_0_r in Hn.
Qed.

(** ** Score *)

Lemma same_terrain_loop (board : Board) pos hex_tile :
  for_each (neighbors pos) 0 (fun count adj_pos =>
    if adj_pos <? len board then
      let* adj := getitem board adj_pos in
      Ok (if (terrain adj =? terrain hex_tile)%string
          then count + 1 else count)
    else Ok count)
  = Ok (same_terrain_neighbors board pos hex_tile).
Proof.
  rewrite (for_each_ok
             (fun count q =>
                if match terrain_at board q with
                   | Some t => (t =? terrain hex_tile)%string
                   | None => false
                   end
                then count + 1 else count)).
  - rewrite fold_count. reflexivity.
  - intros count q Hq. apply neighbors_range in Hq.
    pose proof (getitem_guarded board q (proj1 (proj1 Hq))) as Hg.
    unfold terrain_at.
    destruct (q <? len board).
    + destruct Hg as [h [-> ->]]. reflexivity.
    + now rewrite Hg.
Qed.

Lemma score_terrain_clustering_ok (board : Board) :
  score_terrain_clustering board = Ok (clusterPenalty board).
Proof.
  unfold score_terrain_clustering.
  set (keep := fun ph : Z * Hex =>
                 let '(p, h) := ph in
                 negb (terrain h =? Desert)%string
                 && (2 <=? same_terrain_neighbors board p h)).
  set (count := fun ph : Z * Hex =>
                  let '(p, h) := ph in same_terrain_neighbors board p h).
  rewrite (for_each_ok
             (fun penalty ph => penalty + (if keep ph then count ph else 0))).
  - rewrite (fold_add (fun ph => if keep ph then count ph else 0)).
    rewrite sumZ_filter. reflexivity.
  - intros penalty [p h] _. unfold keep, count.
    destruct (terrain h =? Desert)%string; simpl; [f_equal; lia |].
    rewrite same_terrain_loop. simpl.
    destruct (2 <=? same_terrain_neighbors board p h); f_equal; lia.
Qed.


Lemma truthy_number_pip n : truthy_number n = false -> get_pip_count n = 0.
Proof.
  destruct n as [v |]; simpl; [| reflexivity].
  intros H. apply negb_false_iff, Z.eqb_eq in H. now subst.
Qed.

Lemma high_pip_loop (board : Board) pos :
  forall penalty,
    for_each (neighbors pos) penalty (fun penalty adj_pos =>
      if adj_pos <? len board then
        let* adj := getitem board adj_pos in
        if truthy_number (number adj) then
          let adj_pip := get_pip_count (number adj) in
          Ok (if 4 <=? adj_pip then penalty + 1 else penalty)
        else Ok penalty
      else Ok penalty)
    = Ok (penalty
          + len (filter (fun q => 4 <=? pip_at board q) (neighbors pos))).
Proof.
  intros penalty.
  rewrite (for_each_ok
             (fun penalty q =>
                if 4 <=? pip_at board q then penalty + 1 else penalty)).
  - now rewrite fold_count.
  - intros s q Hq. apply neighbors_range in Hq.
    pose proof (getitem_guarded board q (proj1 (proj1 Hq))) as Hg.
    unfold pip_at.
    destruct (q <? len board).
    + destruct Hg as [h [-> ->]]. simpl.
      destruct (truthy_number (number h)) eqn:T; [reflexivity |].
      now rewrite (truthy_number_pip _ T).
    + now rewrite Hg.
Qed.

Lemma len_app {A} (l l' : list A) : len (l ++ l') = len l + len l'.
Proof. unfold len. rewrite length_app. lia. Qed.

Lemma len_filter_flat_map {A B} (R : B -> bool) (g : A -> list B) l :
  len (filter R (flat_map g l)) = sumZ (map (fun x => len (filter R (g x))) l).
Proof.
  induction l as [| x l IH]; simpl; [reflexivity |].
  now rewrite filter_app, len_app, IH.
Qed.

Lemma filter_map_pair {A B} (R : A * B -> bool) (p : A) (l : list B) :
  filter R (map (pair p) l) = map (pair p) (filter (fun q => R (p, q)) l).
Proof.
  induction l as [| q l IH]; simpl; [reflexivity |].
  destruct (R (p, q)); simpl; now rewrite IH.
Qed.

Lemma filter_filter {A} (f g : A -> bool) l :
  filter f (filter g l) = filter (fun x => g x && f x) l.
Proof.
  induction l as [| x l IH]; simpl; [reflexivity |].
  destruct (g x); simpl; [destruct (f x) |]; now rewrite IH.
Qed.

Lemma filter_false {A} (l : list A) : filter (fun _ => false) l = [].
Proof. induction l; simpl; auto. Qed.

(** The high-pip pairs that start at position [p]. *)
Lemma high_pip_pairs_at (board : Board) p :
  len (filter (fun '(p, q) => (4 <=? pip_at board p) && (4 <=? pip_at board q))
              (map (pair p) (neighbors_on board p)))
  = if 4 <=? pip_at board p
    then len (filter (fun q => 4 <=? pip_at board q) (neighbors p))
    else 0.
Proof.
  rewrite filter_map_pair. unfold len at 1. rewrite length_map.
  fold (len (filter (fun q => (4 <=? pip_at board p) && (4 <=? pip_at board q))
                    (neighbors_on board p))).
  destruct (4 <=? pip_at board p); simpl.
  - unfold neighbors_on. rewrite filter_filter. f_equal.
    apply filter_ext. intros q. unfold pip_at.
    destruct (hex_at board q); reflexivity.
  - now rewrite filter_false.
Qed.

Lemma high_pip_pairs_count (board : Board) :
  len (filter (fun '(p, q) => (4 <=? pip_at board p) && (4 <=? pip_at board q))
              (adjacent_pairs board))
  = sumZ (map (fun ph : Z * Hex =>
                 if 4 <=? pip_at board (fst ph)
                 then len (filter (fun q => 4 <=? pip_at board q)
                                  (neighbors (fst ph)))
                 else 0)
              (enumerate board)).
Proof.
  unfold adjacent_pairs.
  rewrite len_filter_flat_map, <- enumerate_fst, map_map.
  f_equal. apply map_ext. intros [p h]. simpl. apply high_pip_pairs_at.
Qed.

Lemma score_pip_adjacency_ok (board : Board) :
  score_pip_adjacency board = Ok (pipAdjacencyPenalty board).
Proof.
  unfold score_pip_adjacency, pipAdjacencyPenalty.
  rewrite high_pip_pairs_count.
  set (w := fun ph : Z * Hex =>
              if 4 <=? pip_at board (fst ph)
              then len (filter (fun q => 4 <=? pip_at board q)
                               (neighbors (fst ph)))
              else 0).
  rewrite (for_each_ok (fun penalty ph => penalty + w ph)).
  - simpl. rewrite (fold_add w), Z.add_0_l. reflexivity.
  - intros penalty [p h] Hin. unfold w. simpl.
    unfold pip_at. rewrite (enumerate_hex_at board p h Hin).
    destruct (number h) as [v |] eqn:Hn; [| simpl; f_equal; lia].
    destruct (Z.ltb_spec (get_pip_count (Some v)) 4) as [Hlt | Hge].
    + destruct (Z.leb_spec 4 (get_pip_count (Some v))); [lia |].
      f_equal. lia.
    + destruct (Z.leb_spec 4 (get_pip_count (Some v))); [| lia].
      apply high_pip_loop.
Qed.


(** *** The dict of pip totals *)

Lemma existsb_eqb_In k (ts : list string) :
  existsb (String.eqb k) ts = true <-> In k ts.
Proof.
  rewrite existsb_exists. split.
  - intros [t [Hin E]]. apply String.eqb_eq in E. now subst.
  - intros H. exists k. split; [assumption | apply String.eqb_refl].
Qed.

Lemma dict_get_tabulate (f : string -> Z) ts k :
  In k ts -> dict_get String.eqb (map (fun t => (t, f t)) ts) k 0 = f k.
Proof.
  induction ts as [| t ts IH]; simpl; [contradiction |].
  intros H. destruct (String.eqb_spec k t) as [-> | Hne]; [reflexivity |].
  apply IH. destruct H as [H | H]; [congruence | assumption].
Qed.

Lemma dict_get_absent (f : string -> Z) ts k :
  ~ In k ts -> dict_get String.eqb (map (fun t => (t, f t)) ts) k 0 = 0.
Proof.
  induction ts as [| t ts IH]; simpl; [reflexivity |].
  intros H. destruct (String.eqb_spec k t) as [-> | Hne]; [tauto |].
  apply IH. tauto.
Qed.

Lemma dict_set_absent (f : string -> Z) ts k v :
  ~ In k ts ->
  dict_set String.eqb (map (fun t => (t, f t)) ts) k v
  = (map (fun t => (t, f t)) ts ++ [(k, v)])%list.
Proof.
  induction ts as [| t ts IH]; simpl; [reflexivity |].
  intros H. destruct (String.eqb_spec k t) as [-> | Hne]; [tauto |].
  rewrite IH by tauto. reflexivity.
Qed.

Lemma dict_set_present (f : string -> Z) ts k v :
  NoDup ts -> In k ts ->
  dict_set String.eqb (map (fun t => (t, f t)) ts) k v
  = map (fun t => (t, if (k =? t)%string then v else f t)) ts.
Proof.
  induction ts as [| t ts IH]; simpl; [contradiction |].
  intros Hnd Hin. inversion Hnd as [| ? ? Hnotin Hnd']; subst.
  destruct (String.eqb_spec k t) as [-> | Hne].
  - f_equal. apply map_ext_in. intros t' Ht'.
    destruct (String.eqb_spec t t') as [-> | _]; [contradiction | reflexivity].
  - f_equal. apply IH; [assumption |].
    destruct Hin as [Hin | Hin]; [congruence | assumption].
Qed.

Lemma sumZ_app l l' : sumZ (l ++ l') = sumZ l + sumZ l'.
Proof. induction l as [| x l IH]; simpl; lia. Qed.

Lemma terrain_pips_snoc board h t :
  terrain_pips (board ++ [h]) t
  = terrain_pips board t
    + (if (terrain h =? t)%string then get_pip_count (number h) else 0).
Proof.
  unfold terrain_pips. rewrite filter_app, map_app, sumZ_app. simpl.
  destruct (terrain h =? t)%string; simpl; lia.
Qed.

Lemma terrain_pips_absent board t :
  (forall h, In h board -> terrain h <> t) -> terrain_pips board t = 0.
Proof.
  intros H. unfold terrain_pips.
  replace (filter (fun h => (terrain h =? t)%string) board) with (@nil Hex);
    [reflexivity |].
  symmetry. induction board as [| h board IH]; simpl; [reflexivity |].
  destruct (String.eqb_spec (terrain h) t) as [E | _].
  - exfalso. apply (H h); [now left | assumption].
  - apply IH. intros h' Hh'. apply H. now right.
Qed.

Lemma resource_pips_invariant board : pips_invariant board.
Proof.
  induction board as [| h board IH] using rev_ind.
  - split; simpl; try constructor; try tauto.
  - destruct IH as [Htab Hnd Hdes Hall].
    assert (Ep : resource_pips (board ++ [h])
                 = if (terrain h =? Desert)%string then resource_pips board
                   else dict_set String.eqb (resource_pips board) (terrain h)
                          (dict_get String.eqb (resource_pips board)
                                    (terrain h) 0
                           + get_pip_count (number h))).
    { unfold resource_pips. rewrite fold_left_app. reflexivity. }
    assert (Et : terrain_types (board ++ [h])
                 = if (terrain h =? Desert)%string then terrain_types board
                   else if existsb (String.eqb (terrain h)) (terrain_types board)
                        then terrain_types board
                        else (terrain_types board ++ [terrain h])%list).
    { unfold terrain_types. rewrite fold_left_app. reflexivity. }
    destruct (String.eqb_spec (terrain h) Desert) as [Ed | Hnd'].
    + (* a Desert hex changes nothing *)
      split; rewrite ?Ep, ?Et; try assumption.
      * rewrite Htab. apply map_ext_in. intros t Ht. f_equal.
        rewrite terrain_pips_snoc.
        destruct (String.eqb_spec (terrain h) t); [congruence | lia].
      * intros h' Hin Hne. apply in_app_or in Hin.
        destruct Hin as [Hin | [<- | []]]; [now apply Hall | congruence].
    + destruct (existsb (String.eqb (terrain h)) (terrain_types board)) eqn:Ex.
      * (* a terrain seen before: its total grows *)
        apply existsb_eqb_In in Ex.
        split; rewrite ?Ep, ?Et; try assumption.
        -- rewrite Htab, dict_get_tabulate by assumption.
           rewrite dict_set_present by assumption.
           apply map_ext. intros t. f_equal. rewrite terrain_pips_snoc.
           destruct (String.eqb_spec (terrain h) t) as [<- | _]; lia.
        -- intros h' Hin Hne. apply in_app_or in Hin.
           destruct Hin as [Hin | [<- | []]]; [now apply Hall | assumption].
      * (* a new terrain: a new last entry *)
        assert (Hnew : ~ In (terrain h) (terrain_types board)).
        { rewrite <- existsb_eqb_In. congruence. }
        split; rewrite ?Ep, ?Et.
        -- rewrite Htab, dict_get_absent by assumption.
           rewrite dict_set_absent by assumption.
           rewrite map_app. simpl. f_equal.
           ++ apply map_ext_in. intros t Ht. f_equal.
              rewrite terrain_pips_snoc.
              destruct (String.eqb_spec (terrain h) t); [congruence | lia].
           ++ rewrite terrain_pips_snoc, String.eqb_refl.
              rewrite (terrain_pips_absent board (terrain h)); [reflexivity |].
              intros h' Hin E. apply Hnew. rewrite <- E.
              apply Hall; [assumption | congruence].
        -- apply NoDup_app; [assumption | repeat constructor; tauto |].
           intros t Ht [<- | []]. contradiction.
        -- intros Hin. apply in_app_or in Hin.
           destruct Hin as [Hin | [E | []]]; [contradiction | congruence].
        -- intros h' Hin Hne. apply in_or_app. apply in_app_or in Hin.
           destruct Hin as [Hin | [<- | []]]; [left; now apply Hall |].
           right. now left.
Qed.

Lemma rsum_sumR l : rsum l = sumR l.
Proof.
  unfold rsum.
  assert (H : forall a, fold_left Rplus l a = (a + sumR l)%R).
  { induction l as [| x l IH]; intros a; simpl.
    - lra.
    - rewrite IH. lra. }
  rewrite H. lra.
Qed.

Lemma score_resource_balance_ok (board : Board) :
  score_resource_balance board = balancePenalty board.
Proof.
  unfold score_resource_balance, balancePenalty.
  rewrite (pips_table board (resource_pips_invariant board)).
  rewrite map_map. simpl.
  destruct (terrain_types board) as [| t ts]; [reflexivity |].
  unfold pstdev. cbv zeta.
  now rewrite rsum_sumR, zsum_sumZ.
Qed.


Lemma score_board_ok (board : Board) : score_board board = Ok (score board).
Proof.
  unfold score_board, score.
  rewrite score_terrain_clustering_ok, score_pip_adjacency_ok,
    score_resource_balance_ok.
  simpl. f_equal. ring.
Qed.



(** Two scores computed: positions 0, 1, 2 are in a row, so the middle
    Forest has two Forest neighbors (cluster 2) and there are two adjacent
    high-pip pairs; one terrain has deviation 0. Forest 5 pips and Hill 1
    pip have deviation 2. *)
Example score_three_forests : score_board three_forests = Ok 26%R.
Proof.
  rewrite score_board_ok. f_equal. unfold score.
  replace (clusterPenalty three_forests) with 2 by (vm_compute; reflexivity).
  unfold pipAdjacencyPenalty.
  match goal with
  | |- context [len ?l] => replace (len l) with 4 by (vm_compute; reflexivity)
  end.
  unfold balancePenalty.
  replace (terrain_types three_forests) with ["Forest"] by reflexivity.
  unfold pstdev.
  replace (map (terrain_pips three_forests) ["Forest"]) with [14]
    by (vm_compute; reflexivity).
  cbv zeta. unfold len, sumZ, sumR. simpl.
  replace ((14 - 14 / 1) * ((14 - 14 / 1) * 1) + 0)%R with 0%R by field.
  replace (0 / 1)%R with 0%R by field. rewrite sqrt_0. field.
Qed.

Example score_forest_and_hill : score_board forest_and_hill = Ok 10%R.
Proof.
  rewrite score_board_ok. f_equal. unfold score.
  replace (clusterPenalty forest_and_hill) with 0 by (vm_compute; reflexivity).
  unfold pipAdjacencyPenalty.
  match goal with
  | |- context [len ?l] => replace (len l) with 0 by (vm_compute; reflexivity)
  end.
  unfold balancePenalty.
  replace (terrain_types forest_and_hill) with ["Forest"; "Hill"]
    by reflexivity.
  unfold pstdev.
  replace (map (terrain_pips forest_and_hill) ["Forest"; "Hill"]) with [5; 1]
    by (vm_compute; reflexivity).
  cbv zeta. unfold len, sumZ, sumR. simpl.
  replace (((5 - 6 / 2) * ((5 - 6 / 2) * 1)
            + ((1 - 6 / 2) * ((1 - 6 / 2) * 1) + 0)) / 2)%R
    with (2 * 2)%R by field.
  rewrite sqrt_square by lra. field.
Qed.

(** ** Positions outside the 19-hex topology *)

Lemma bool_eq_iff (a b : bool) : (a = true <-> b = true) -> a = b.
Proof. destruct a, b; intros [H1 H2]; auto; symmetry; auto. Qed.

Lemma high_at_on_graph board p :
  high_at (filter on_graph board) p <-> high_at board p /\ 0 <= p <= 18.
Proof.
  unfold high_at. split.
  - intros (h & Hin & Hp & Hn). apply filter_In in Hin.
    destruct Hin as [Hin Hg]. unfold on_graph in Hg.
    split; [exists h; auto | lia].
  - intros [(h & Hin & Hp & Hn) Hr]. exists h. split; [| auto].
    apply filter_In. split; [assumption |]. unfold on_graph. lia.
Qed.

Lemma check_adjacent_high_numbers_on_graph board :
  check_adjacent_high_numbers board
  = check_adjacent_high_numbers (filter on_graph board).
Proof.
  apply bool_eq_iff. rewrite !adjacent_high_check. split.
  - intros H p q Hp Hq Hhq.
    apply high_at_on_graph in Hp. apply high_at_on_graph in Hhq.
    exact (H p q (proj1 Hp) Hq (proj1 Hhq)).
  - intros H p q Hp Hq Hhq. pose proof (neighbors_range p q Hq) as [Rq Rp].
    apply (H p q); try assumption; apply high_at_on_graph; auto.
Qed.

Lemma edge_positions_range p : In p edge_positions -> 0 <= p <= 18.
Proof. unfold edge_positions. simpl. lia. Qed.

Lemma check_desert_placement_on_graph board :
  check_desert_placement board
  = check_desert_placement (filter on_graph board).
Proof.
  apply bool_eq_iff. unfold check_desert_placement.
  rewrite !forallb_forall. split.
  - intros H h Hin. apply filter_In in Hin. now apply H.
  - intros H h Hin. destruct (on_graph h) eqn:Hg.
    + apply H. apply filter_In. auto.
    + apply negb_true_iff, andb_false_iff. right. apply mem_false.
      intros He. apply edge_positions_range in He.
      unfold on_graph in Hg. lia.
Qed.

Lemma hex_at_firstn (board : Board) q :
  q <= 18 -> hex_at (firstn 19 board) q = hex_at board q.
Proof.
  intros Hq. unfold hex_at. destruct (q <? 0) eqn:E; [reflexivity |].
  apply Z.ltb_ge in E. rewrite nth_error_firstn.
  destruct (Nat.ltb_spec (Z.to_nat q) 19); [reflexivity | lia].
Qed.

(** A sum over the enumerated board whose terms vanish outside the graph
    only sees the first 19 hexes. *)
Lemma sum_on_graph (g g' : Z * Hex -> Z) (board : Board) :
  forall (n : nat) start,
    (forall p h, start <= p < start + Z.of_nat n -> g (p, h) = g' (p, h)) ->
    (forall p h, start + Z.of_nat n <= p -> g (p, h) = 0) ->
    sumZ (map g (enumerate_from start board))
    = sumZ (map g' (enumerate_from start (firstn n board))).
Proof.
  induction board as [| x board IH]; intros n start Hin Hout.
  - now rewrite firstn_nil.
  - destruct n as [| n]; simpl.
    + rewrite Hout by lia. rewrite (IH 0%nat (start + 1)).
      * reflexivity.
      * intros p h Hp. lia.
      * intros p h Hp. apply Hout. lia.
    + rewrite Hin by lia. f_equal. apply IH.
      * intros p h Hp. apply Hin. lia.
      * intros p h Hp. apply Hout. lia.
Qed.

Lemma same_terrain_neighbors_firstn board p h :
  same_terrain_neighbors (firstn 19 board) p h
  = same_terrain_neighbors board p h.
Proof.
  unfold same_terrain_neighbors. f_equal. apply filter_ext_in.
  intros q Hq. apply neighbors_range in Hq. unfold terrain_at.
  rewrite hex_at_firstn by lia. reflexivity.
Qed.

Lemma same_terrain_neighbors_outside board p h :
  18 < p -> same_terrain_neighbors board p h = 0.
Proof.
  intros Hp. unfold same_terrain_neighbors.
  rewrite neighbors_outside by lia. reflexivity.
Qed.

Lemma clusterPenalty_firstn board :
  clusterPenalty board = clusterPenalty (firstn 19 board).
Proof.
  unfold clusterPenalty. rewrite <- !sumZ_filter.
  unfold enumerate. apply sum_on_graph.
  - intros p h _. now rewrite !same_terrain_neighbors_firstn.
  - intros p h Hp. rewrite same_terrain_neighbors_outside by lia.
    now destruct (negb _ && _).
Qed.

Lemma pip_at_firstn board q :
  q <= 18 -> pip_at (firstn 19 board) q = pip_at board q.
Proof. intros H. unfold pip_at. now rewrite hex_at_firstn. Qed.

Lemma pipAdjacencyPenalty_firstn board :
  pipAdjacencyPenalty board = pipAdjacencyPenalty (firstn 19 board).
Proof.
  unfold pipAdjacencyPenalty. rewrite !high_pip_pairs_count.
  do 2 f_equal. unfold enumerate. apply sum_on_graph.
  - intros p h Hp. cbn [fst]. rewrite pip_at_firstn by lia.
    destruct (4 <=? pip_at board p); [| reflexivity].
    f_equal. apply filter_ext_in. intros q Hq.
    apply neighbors_range in Hq. now rewrite pip_at_firstn by lia.
  - intros p h Hp. cbn [fst]. rewrite neighbors_outside by lia.
    now destruct (4 <=? pip_at board p).
Qed.

(** C10: outside 0..18 the adjacency lookup returns the empty list, and no
    position has a neighbor outside 0..18; so the graph operations are
    total on boards of any length and blind to the positions 19 and above:
    the two checks give the same answer once the hexes at positions outside
    0..18 are removed, and the clustering and pip-adjacency penalties are
    computed without an exception and are those of the first 19 hexes. *)
Theorem positions_outside_graph_isolated :
  (forall p, ~ 0 <= p <= 18 -> neighbors p = [])
  /\ (forall p q, In q (neighbors p) -> 0 <= q <= 18)
  /\ (forall board,
        check_adjacent_high_numbers board
        = check_adjacent_high_numbers (filter on_graph board))
  /\ (forall board,
        check_desert_placement board
        = check_desert_placement (filter on_graph board))
  /\ (forall board,
        exists c, score_terrain_clustering board = Ok c
                  /\ score_terrain_clustering (firstn 19 board) = Ok c)
  /\ (forall board,
        exists a, score_pip_adjacency board = Ok a
                  /\ score_pip_adjacency (firstn 19 board) = Ok a).
Proof.
  split; [exact neighbors_outside |].
  split; [intros p q H; exact (proj1 (neighbors_range p q H)) |].
  split; [exact check_adjacent_high_numbers_on_graph |].
  split; [exact check_desert_placement_on_graph |].
  split; intros board.
  - exists (clusterPenalty board). rewrite !score_terrain_clustering_ok.
    split; [reflexivity | now rewrite <- clusterPenalty_firstn].
  - exists (pipAdjacencyPenalty board). rewrite !score_pip_adjacency_ok.
    split; [reflexivity | now rewrite <- pipAdjacencyPenalty_firstn].
Qed.

(** ** The candidate sampler *)

Lemma insert_at_perm {A} k (x : A) l : Permutation (insert_at k x l) (x :: l).
Proof.
  unfold insert_at. symmetry.
  rewrite <- (firstn_skipn k l) at 1. apply Permutation_middle.
Qed.

Lemma weave_perm {A} (l : list A) : forall code, Permutation (weave code l) l.
Proof.
  induction l as [| x l IH]; intros code; simpl; [constructor |].
  rewrite insert_at_perm. constructor. apply IH.
Qed.

Lemma replay_perm A (l : list A) g : Permutation (fst (replay A l g)) l.
Proof. apply weave_perm. Qed.

Lemma filter_perm {A} (f : A -> bool) l l' :
  Permutation l l' -> Permutation (filter f l) (filter f l').
Proof.
  induction 1 as [| x l l' _ IH | x y l | l l' l'' _ IH1 _ IH2]; simpl.
  - constructor.
  - destruct (f x); [constructor |]; assumption.
  - destruct (f x), (f y); try reflexivity. apply perm_swap.
  - now transitivity (filter f l').
Qed.

Lemma numbered_perm ts ts' : Permutation ts ts' -> numbered ts = numbered ts'.
Proof.
  intros H. unfold numbered, len. f_equal.
  apply Permutation_length. now apply filter_perm.
Qed.

Lemma numbered_nonneg ts : 0 <= numbered ts.
Proof. apply len_nonneg. Qed.

Lemma skipn_nth_error {A} (l : list A) :
  forall n x, nth_error l n = Some x -> skipn n l = x :: skipn (S n) l.
Proof.
  induction l as [| y l IH]; intros [| n] x H; simpl in *; try discriminate.
  - now inversion H.
  - now apply IH.
Qed.

Lemma getitem_in_range {A} (l : list A) k :
  0 <= k < len l ->
  exists v, getitem l k = Ok v /\ nth_error l (Z.to_nat k) = Some v.
Proof.
  intros Hk. unfold getitem. cbv zeta.
  assert (E0 : (k <? 0) = false) by (apply Z.ltb_ge; lia).
  rewrite !E0.
  destruct (nth_error l (Z.to_nat k)) as [v |] eqn:E.
  - exists v. auto.
  - apply nth_error_None in E. unfold len in Hk. lia.
Qed.

Lemma numbered_cons t ts :
  numbered (t :: ts) = (if (t =? Desert)%string then 0 else 1) + numbered ts.
Proof.
  unfold numbered. simpl. destruct (t =? Desert)%string; simpl.
  - reflexivity.
  - now rewrite len_cons.
Qed.

(** The placing loop from position [i], with [board] built so far and
    [k] numbers used: it appends one hex per terrain, in order, and hands
    out the next numbers in order. *)
Lemma place_loop (sn : list Z) (ts : list string) :
  forall i board k,
    0 <= k -> k + numbered ts <= len sn ->
    exists tail,
      for_each (enumerate_from i ts) (board, k) (place_hex sn)
      = Ok (board ++ tail, k + numbered ts)
      /\ map position tail = map fst (enumerate_from i ts)
      /\ map terrain tail = ts
      /\ tokens_on tail
         = firstn (Z.to_nat (numbered ts)) (skipn (Z.to_nat k) sn)
      /\ Forall tile_ok tail.
Proof.
  induction ts as [| t ts IH]; intros i board k Hk Hlen.
  - exists []. simpl. rewrite app_nil_r, Z.add_0_r. repeat split. constructor.
  - rewrite numbered_cons in *. pose proof (numbered_nonneg ts) as Hn.
    cbn [for_each enumerate_from]. unfold place_hex at 1.
    destruct (String.eqb_spec t Desert) as [Ed | Hnd].
    + destruct (IH (i + 1) (board ++ [mkHex i t None]) k Hk Hlen)
        as (tail & Hrun & Hpos & Hter & Htok & Hok).
      exists (mkHex i t None :: tail). cbn [rbind negb].
      assert (Et : (t =? Desert)%string = true) by now apply String.eqb_eq.
      split; [etransitivity; [exact Hrun |]; now rewrite <- app_assoc |].
      simpl. repeat split; try congruence.
      * now rewrite Et.
      * constructor; [| assumption]. unfold tile_ok. simpl. now rewrite Et.
    + destruct (getitem_in_range sn k) as (v & Hget & Hnth); [lia |].
      rewrite Hget. cbn [rbind negb].
      destruct (IH (i + 1) (board ++ [mkHex i t (Some v)]) (k + 1))
        as (tail & Hrun & Hpos & Hter & Htok & Hok); [lia | lia |].
      exists (mkHex i t (Some v) :: tail).
      assert (Et : (t =? Desert)%string = false) by now apply String.eqb_neq.
      split.
      { etransitivity; [exact Hrun |]. rewrite <- app_assoc.
        do 2 f_equal. lia. }
      split; [cbn [map position fst]; congruence |].
      split; [cbn [map terrain]; congruence |].
      split.
      * unfold tokens_on. cbn [flat_map terrain number]. rewrite Et.
        fold (tokens_on tail). rewrite Htok.
        rewrite (skipn_nth_error sn _ v Hnth).
        replace (Z.to_nat (1 + numbered ts))
          with (S (Z.to_nat (numbered ts))) by lia.
        replace (S (Z.to_nat k)) with (Z.to_nat (k + 1)) by lia.
        reflexivity.
      * constructor; [| assumption]. unfold tile_ok. cbn [terrain number].
        rewrite Et. now exists v.
Qed.



Lemma enumerate_positions {A} (l : list A) :
  map fst (enumerate l) = map Z.of_nat (seq 0 (List.length l)).
Proof.
  unfold enumerate. rewrite enumerate_from_fst.
  apply map_ext. intros i. lia.
Qed.

Lemma profile_pools name :
  In name profile_names ->
  exists ts ns, pools_fit (CatanBoardGenerator name) ts ns /\ ts <> [].
Proof.
  intros [<- | [<- | [<- | []]]].
  - exists base_terrains, base_numbers. repeat split. discriminate.
  - exists extension_terrains, extension_numbers. repeat split. discriminate.
  - exists custom_terrains, custom_numbers. repeat split. discriminate.
Qed.

Section GenerationFacts.

Variable G : Type.
Variable shuffle : forall A : Type, list A -> G -> list A * G.
Hypothesis shuffle_perm :
  forall A (l : list A) g, Permutation (fst (shuffle A l g)) l.

(** One call of the sampler on a generator whose pools fit. *)
Lemma sample_ok self ts ns g :
  pools_fit self ts ns ->
  exists board g',
    generate_candidate_board shuffle self g = Ok (board, g')
    /\ map position board = map Z.of_nat (seq 0 (List.length ts))
    /\ Permutation (map terrain board) ts
    /\ Permutation (tokens_on board) ns
    /\ Forall tile_ok board.
Proof.
  intros (Ht & Hn & Hfit). unfold generate_candidate_board.
  rewrite Ht, Hn. cbn [getattr rbind].
  pose proof (shuffle_perm _ ts g) as Pt.
  destruct (shuffle string ts g) as [st g1]. cbn [fst] in Pt.
  pose proof (shuffle_perm _ ns g1) as Pn.
  destruct (shuffle Z ns g1) as [sn g2]. cbn [fst] in Pn.
  assert (Hlen : 0 + numbered st <= len sn).
  { rewrite (numbered_perm st ts Pt), Hfit. unfold len.
    rewrite (Permutation_length Pn). lia. }
  destruct (place_loop sn st 0 [] 0 (Z.le_refl 0) Hlen)
    as (board & Hrun & Hpos & Hter & Htok & Hok).
  unfold enumerate.
  match goal with
  | |- context [for_each ?l ?s ?b] =>
      replace (for_each l s b) with (Ok (([] ++ board : Board), 0 + numbered st))
        by (symmetry; exact Hrun)
  end.
  cbn [rbind fst app].
  exists board, g2. split; [reflexivity |].
  split.
  { rewrite Hpos. fold (enumerate st). rewrite enumerate_positions.
    now rewrite (Permutation_length Pt). }
  split; [now rewrite Hter |].
  split; [| assumption].
  rewrite Htok. cbn [Z.to_nat skipn].
  assert (E : Z.to_nat (numbered st) = List.length sn).
  { rewrite (numbered_perm st ts Pt), Hfit. unfold len.
    rewrite (Permutation_length Pn). lia. }
  rewrite E, firstn_all. exact Pn.
Qed.

(** C2: for each of the three profiles, one call of the sampler returns a
    board with one hex per position 0..N-1 in order (N the size of the
    terrain pool), whose terrains are a permutation of the terrain pool,
    whose numbers on the hexes other than Desert are a permutation of the
    number pool, where a Desert hex carries no number and any other hex
    carries one. *)
Theorem sample_preserves_profile (name : string) (g : G) :
  In name profile_names ->
  exists ts ns board g',
    terrains (CatanBoardGenerator name) = Some ts
    /\ numbers (CatanBoardGenerator name) = Some ns
    /\ generate_candidate_board shuffle (CatanBoardGenerator name) g
       = Ok (board, g')
    /\ map position board = map Z.of_nat (seq 0 (List.length ts))
    /\ Permutation (map terrain board) ts
    /\ Permutation (tokens_on board) ns
    /\ (forall h, In h board ->
          (terrain h = Desert -> number h = None)
          /\ (terrain h <> Desert -> exists n, number h = Some n)).
Proof.
  intros Hname.
  destruct (profile_pools name Hname) as (ts & ns & Hfit & _).
  destruct (sample_ok _ ts ns g Hfit) as (board & g' & Hs & Hp & Ht & Hn & Hok).
  exists ts, ns, board, g'. destruct Hfit as (Ets & Ens & _).
  repeat (split; [assumption |]).
  intros h Hin. rewrite Forall_forall in Hok. specialize (Hok h Hin).
  unfold tile_ok in Hok.
  destruct (String.eqb_spec (terrain h) Desert); split; intros; tauto.
Qed.

End GenerationFacts.

(** ** Comparing doubles

    [<] and [<=] on doubles through their specification [SFcompare]:
    among the doubles that are not NaN they are a total preorder and its
    strict part. *)

Ltac sf_cases :=
  simpl; try discriminate; try reflexivity;
  repeat match goal with
         | s : bool |- _ => destruct s
         end;
  simpl; try discriminate; try reflexivity;
  change (Pos.compare_cont Eq) with Pos.compare;
  repeat match goal with
         | |- context [Z.compare ?x ?y] => destruct (Z.compare_spec x y)
         | |- context [Pos.compare ?x ?y] => destruct (Pos.compare_spec x y)
         end;
  simpl; try discriminate; try reflexivity; try lia;
  try (intros; discriminate); try (intros; reflexivity); try (intros; lia).

Lemma SFcompare_flip a b r :
  SFcompare a b = Some r -> SFcompare b a = Some (CompOpp r).
Proof.
  intros H.
  assert (E : SFcompare b a = option_map CompOpp (SFcompare a b)).
  { clear H.
    destruct a as [sa | sa | | sa ma ea], b as [sb | sb | | sb mb eb];
      sf_cases. }
  rewrite E, H. reflexivity.
Qed.

Lemma SFcompare_total a b :
  a <> S754_nan -> b <> S754_nan -> exists r, SFcompare a b = Some r.
Proof. destruct a, b; simpl; intros; try congruence; eauto. Qed.

Lemma SFcompare_number a b r :
  SFcompare a b = Some r -> a <> S754_nan /\ b <> S754_nan.
Proof. destruct a, b; simpl; intros; split; congruence. Qed.

Lemma SFcompare_lt_trans a b c :
  SFcompare a b = Some Lt -> SFcompare b c = Some Lt ->
  SFcompare a c = Some Lt.
Proof.
  destruct a as [sa | sa | | sa ma ea], b as [sb | sb | | sb mb eb],
           c as [sc | sc | | sc mc ec]; sf_cases.
Qed.

Lemma SFcompare_lt_eq a b c :
  SFcompare a b = Some Lt -> SFcompare b c = Some Eq ->
  SFcompare a c = Some Lt.
Proof.
  destruct a as [sa | sa | | sa ma ea], b as [sb | sb | | sb mb eb],
           c as [sc | sc | | sc mc ec]; sf_cases.
Qed.

Lemma SFcompare_eq_lt a b c :
  SFcompare a b = Some Eq -> SFcompare b c = Some Lt ->
  SFcompare a c = Some Lt.
Proof.
  destruct a as [sa | sa | | sa ma ea], b as [sb | sb | | sb mb eb],
           c as [sc | sc | | sc mc ec]; sf_cases.
Qed.

Lemma SFcompare_refl a : a <> S754_nan -> SFcompare a a = Some Eq.
Proof.
  destruct a as [sa | sa | | sa ma ea]; sf_cases. intros H; congruence.
Qed.

Lemma float_lt_iff x y :
  (x <? y)%float = true <-> SFcompare (Prim2SF x) (Prim2SF y) = Some Lt.
Proof.
  rewrite FloatAxioms.ltb_spec. unfold SFltb.
  destruct (SFcompare (Prim2SF x) (Prim2SF y)) as [[| |] |];
    split; congruence.
Qed.

Lemma float_le_iff x y :
  (x <=? y)%float = true <->
  SFcompare (Prim2SF x) (Prim2SF y) = Some Lt
  \/ SFcompare (Prim2SF x) (Prim2SF y) = Some Eq.
Proof.
  rewrite FloatAxioms.leb_spec. unfold SFleb.
  destruct (SFcompare (Prim2SF x) (Prim2SF y)) as [[| |] |];
    split; try tauto; try congruence; intros [H | H]; congruence.
Qed.

Lemma float_lt_number x y :
  (x <? y)%float = true -> Prim2SF x <> S754_nan /\ Prim2SF y <> S754_nan.
Proof. intros H. apply float_lt_iff in H. exact (SFcompare_number _ _ _ H). Qed.

Lemma is_nan_number x : is_nan x = false -> Prim2SF x <> S754_nan.
Proof.
  unfold is_nan. rewrite FloatAxioms.eqb_spec. unfold SFeqb. intros H E.
  rewrite E in H. discriminate.
Qed.

Lemma float_lt_trans x y z :
  (x <? y)%float = true -> (y <? z)%float = true -> (x <? z)%float = true.
Proof.
  rewrite !float_lt_iff. apply SFcompare_lt_trans.
Qed.

Lemma float_lt_le_trans x y z :
  (x <? y)%float = true -> (y <=? z)%float = true -> (x <? z)%float = true.
Proof.
  rewrite !float_lt_iff, float_le_iff. intros H [H' | H'].
  - exact (SFcompare_lt_trans _ _ _ H H').
  - exact (SFcompare_lt_eq _ _ _ H H').
Qed.

Lemma float_le_lt_trans x y z :
  (x <=? y)%float = true -> (y <? z)%float = true -> (x <? z)%float = true.
Proof.
  rewrite !float_lt_iff, float_le_iff. intros [H | H] H'.
  - exact (SFcompare_lt_trans _ _ _ H H').
  - exact (SFcompare_eq_lt _ _ _ H H').
Qed.

Lemma float_lt_le x y : (x <? y)%float = true -> (x <=? y)%float = true.
Proof. rewrite float_lt_iff, float_le_iff. now left. Qed.

Lemma float_le_refl x z : (x <? z)%float = true -> (x <=? x)%float = true.
Proof.
  intros H. apply float_lt_number in H. rewrite float_le_iff. right.
  apply SFcompare_refl, H.
Qed.

(** Two doubles that are not NaN compare one way or the other. *)
Lemma float_not_lt_le x y :
  Prim2SF x <> S754_nan -> Prim2SF y <> S754_nan ->
  (x <? y)%float = false -> (y <=? x)%float = true.
Proof.
  intros Hx Hy H. destruct (SFcompare_total _ _ Hx Hy) as [r Hr].
  pose proof (SFcompare_flip _ _ _ Hr) as Hf.
  rewrite float_le_iff, Hf.
  destruct r; simpl; [now right | | now left].
  apply float_lt_iff in Hr. congruence.
Qed.

Lemma float_le_not_lt x y : (x <=? y)%float = true -> (y <? x)%float = false.
Proof.
  rewrite float_le_iff. intros H.
  destruct (y <? x)%float eqn:E; [| reflexivity].
  apply float_lt_iff in E. apply SFcompare_flip in E. simpl in E.
  destruct H as [H | H]; congruence.
Qed.

(** A double that is neither NaN nor below [inf] is above every double
    that is below [inf]. *)
Lemma float_lt_not_below x y :
  (x <? infinity)%float = true -> is_nan y = false ->
  (y <? infinity)%float = false -> (x <? y)%float = true.
Proof.
  intros Hx Hy H.
  pose proof (float_lt_number _ _ Hx) as [_ Hinf].
  apply is_nan_number in Hy.
  pose proof (float_not_lt_le _ _ Hy Hinf H) as Hle.
  exact (float_lt_le_trans _ _ _ Hx Hle).
Qed.

Lemma fifty_below_inf : (50 <? infinity)%float = true.
Proof. reflexivity. Qed.

(** ** The score in doubles *)

Section DoubleScore.

Context {P : Platform}.

Lemma double_score_pip_adjacency_ok (board : Board) :
  Double.score_pip_adjacency board
  = Ok (float_of_int (len (high_pip_pairs board)) / float_of_int 2)%float.
Proof.
  unfold Double.score_pip_adjacency, high_pip_pairs.
  rewrite high_pip_pairs_count.
  set (w := fun ph : Z * Hex =>
              if 4 <=? pip_at board (fst ph)
              then len (filter (fun q => 4 <=? pip_at board q)
                               (neighbors (fst ph)))
              else 0).
  rewrite (for_each_ok (fun penalty ph => penalty + w ph)).
  - simpl. rewrite (fold_add w), Z.add_0_l. reflexivity.
  - intros penalty [p h] Hin. unfold w. simpl.
    unfold pip_at. rewrite (enumerate_hex_at board p h Hin).
    destruct (number h) as [v |] eqn:Hn; [| simpl; f_equal; lia].
    destruct (Z.ltb_spec (get_pip_count (Some v)) 4) as [Hlt | Hge].
    + destruct (Z.leb_spec 4 (get_pip_count (Some v))); [lia |].
      f_equal. lia.
    + destruct (Z.leb_spec 4 (get_pip_count (Some v))); [| lia].
      apply high_pip_loop.
Qed.

(** [_score_board] raises nothing and returns [double_score]. *)
Lemma double_score_board_ok (board : Board) :
  Double.score_board board = Ok (double_score board).
Proof.
  unfold Double.score_board, double_score.
  rewrite score_terrain_clustering_ok, double_score_pip_adjacency_ok.
  reflexivity.
Qed.

(** The balance in doubles, from the pip totals of the terrains. *)
Lemma double_balance_totals (board : Board) :
  Double.score_resource_balance board
  = match terrain_totals board with
    | [] => float_of_int 0
    | values =>
        let n := float_of_int (len values) in
        let avg_pips := (float_of_int (sumZ values) / n)%float in
        PrimFloat.sqrt
          (float_sum (map (fun v => float_pow2 (float_of_int v - avg_pips))
                          values) / n)%float
    end.
Proof.
  unfold Double.score_resource_balance, terrain_totals.
  rewrite (pips_table board (resource_pips_invariant board)).
  rewrite map_map. simpl.
  destruct (terrain_types board) as [| t ts]; [reflexivity |].
  cbv zeta. now rewrite zsum_sumZ.
Qed.

Lemma ranked_valid board : ranked board = true -> valid board = true.
Proof. unfold ranked. intros H. now apply andb_true_iff in H. Qed.

Lemma ranked_below_inf board :
  ranked board = true -> (double_score board <? infinity)%float = true.
Proof. unfold ranked. intros H. now apply andb_true_iff in H. Qed.

(** A valid board below the threshold is ranked. *)
Lemma below_fifty_ranked board :
  valid board = true -> (double_score board <? 50)%float = true ->
  ranked board = true.
Proof.
  intros Hv H. unfold ranked. rewrite Hv. cbn [andb].
  exact (float_lt_trans _ 50%float infinity H fifty_below_inf).
Qed.

(** No ranked board of a list is below the threshold exactly when no valid
    one is. *)
Lemma none_below_fifty (cs : list Board) :
  (forall c, In c cs -> ranked c = true ->
             (double_score c <? 50)%float = false)
  <-> (forall c, In c cs -> valid c = true ->
                 (double_score c <? 50)%float = false).
Proof.
  split; intros H c Hc Hv.
  - destruct (double_score c <? 50)%float eqn:E; [| reflexivity].
    rewrite <- E. apply H; [assumption |]. now apply below_fifty_ranked.
  - apply H; [assumption |]. now apply ranked_valid.
Qed.

End DoubleScore.

(** ** The best candidate so far *)

Lemma nth_error_snoc {A} (l : list A) c j x :
  nth_error (l ++ [c]) j = Some x ->
  ((j < List.length l)%nat /\ nth_error l j = Some x)
  \/ (j = List.length l /\ x = c).
Proof.
  intros H. destruct (Nat.lt_ge_cases j (List.length l)) as [Hlt | Hge].
  - left. split; [assumption |]. now rewrite nth_error_app1 in H.
  - right. rewrite nth_error_app2 in H by assumption.
    destruct (j - List.length l)%nat as [| m] eqn:E; simpl in H.
    + inversion H. split; [lia | reflexivity].
    + destruct m; discriminate.
Qed.

Lemma nth_error_snoc_last {A} (l : list A) c :
  nth_error (l ++ [c]) (List.length l) = Some c.
Proof. rewrite nth_error_app2, Nat.sub_diag by lia. reflexivity. Qed.

Section BestFacts.

Context {P : Platform}.

(** A candidate that is not ranked leaves the best as it is. *)
Lemma best_is_skip pre bb bs c :
  best_is pre bb bs -> ranked c = false -> best_is (pre ++ [c]) bb bs.
Proof.
  intros H Hc. destruct bb as [b |]; simpl in *.
  - destruct H as [Hs (i & Hi & Hv & Hmin)]. split; [assumption |].
    exists i. split.
    { rewrite nth_error_app1; [assumption |].
      apply nth_error_Some. congruence. }
    split; [assumption |].
    intros j x Hj Hx. apply nth_error_snoc in Hj.
    destruct Hj as [[_ Hj] | [_ ->]]; [now apply Hmin | congruence].
  - destruct H as [Hs Hall]. split; [assumption |].
    intros x Hx. apply in_app_or in Hx.
    destruct Hx as [Hx | [<- | []]]; [now apply Hall | assumption].
Qed.

(** The best score is [inf] or below it. *)
Lemma best_is_bound pre bb bs s :
  best_is pre bb bs -> (s <? bs)%float = true ->
  (s <? infinity)%float = true.
Proof.
  intros H Hlt. destruct bb as [b |]; simpl in H.
  - destruct H as [-> (i & _ & Hr & _)].
    exact (float_lt_trans _ _ _ Hlt (ranked_below_inf b Hr)).
  - destruct H as [-> _]. exact Hlt.
Qed.

(** A valid candidate of strictly lower score becomes the best. *)
Lemma best_is_replace pre bb bs c :
  best_is pre bb bs -> valid c = true ->
  (double_score c <? bs)%float = true ->
  best_is (pre ++ [c]) (Some c) (double_score c).
Proof.
  intros H Hc Hlt. simpl. split; [reflexivity |].
  exists (List.length pre). split; [apply nth_error_snoc_last |].
  split.
  { unfold ranked. rewrite Hc. cbn [andb].
    exact (best_is_bound _ _ _ _ H Hlt). }
  intros j x Hj Hx. apply nth_error_snoc in Hj.
  destruct Hj as [[Hlen Hj] | [-> ->]].
  - assert (Hs : (double_score c <? double_score x)%float = true).
    { destruct bb as [b |]; simpl in H.
      - destruct H as [-> (i & Hi & Hv & Hmin)].
        destruct (Hmin j x Hj Hx) as [Hle _].
        exact (float_lt_le_trans _ _ _ Hlt Hle).
      - destruct H as [_ Hall]. apply nth_error_In in Hj.
        rewrite (Hall x Hj) in Hx. discriminate. }
    split; [now apply float_lt_le | intros _; exact Hs].
  - split; [exact (float_le_refl _ _ Hlt) | lia].
Qed.

(** A ranked candidate that is not strictly lower leaves the best as it
    is, and there is a best. *)
Lemma best_is_keep pre bb bs c :
  best_is pre bb bs -> ranked c = true ->
  (double_score c <? bs)%float = false ->
  best_is (pre ++ [c]) bb bs
  /\ exists b, bb = Some b /\ In b pre /\ ranked b = true
               /\ (double_score b <=? double_score c)%float = true.
Proof.
  intros H Hc Hlt. pose proof (ranked_below_inf c Hc) as Hcn.
  destruct bb as [b |]; simpl in H.
  - destruct H as [-> (i & Hi & Hv & Hmin)].
    assert (Hle : (double_score b <=? double_score c)%float = true).
    { apply float_not_lt_le; [| | assumption].
      - exact (proj1 (float_lt_number _ _ Hcn)).
      - exact (proj1 (float_lt_number _ _ (ranked_below_inf b Hv))). }
    split.
    + simpl. split; [reflexivity |]. exists i. split.
      { rewrite nth_error_app1; [assumption |].
        apply nth_error_Some. congruence. }
      split; [assumption |].
      intros j x Hj Hx. apply nth_error_snoc in Hj.
      destruct Hj as [[_ Hj] | [-> ->]]; [now apply Hmin |].
      split; [assumption |]. intros Hji.
      assert (i < List.length pre)%nat by (apply nth_error_Some; congruence).
      lia.
    + exists b. repeat split; try assumption. now apply nth_error_In in Hi.
  - destruct H as [-> _]. congruence.
Qed.

End BestFacts.

(** ** The best-of-N loop *)

Section LoopFacts.

Context {P : Platform}.
Variable G : Type.
Variable shuffle : forall A : Type, list A -> G -> list A * G.
Variable self : Generator.
Hypothesis sampler_total :
  forall g, exists board g',
    generate_candidate_board shuffle self g = Ok (board, g').

Lemma valid_split board :
  valid board = true <->
  check_adjacent_high_numbers board = true
  /\ check_desert_placement board = true.
Proof. unfold valid. apply andb_true_iff. Qed.

(** One more sample in front of a run of samples. *)
Lemma samples_cons g board g1 cs g' :
  generate_candidate_board shuffle self g = Ok (board, g1) ->
  samples shuffle self (List.length cs) g1 = Ok (cs, g') ->
  samples shuffle self (List.length (board :: cs)) g = Ok (board :: cs, g').
Proof.
  intros Hs Hr. simpl. rewrite Hs. simpl. rewrite Hr. reflexivity.
Qed.

(** The loop, started with [n] iterations left after the candidates [pre]
    with their best in hand, none of them below the threshold: it consumes
    a run [cs] of samples, ends with the best of [pre ++ cs], and either
    runs all [n] iterations without meeting a valid candidate below the
    threshold, or stops at the first one. *)
Lemma attempts_inv :
  forall n pre g bb bs bb' bs' g',
    best_is pre bb bs ->
    (forall c, In c pre -> ranked c = true ->
               (double_score c <? 50)%float = false) ->
    attempts shuffle self n bb bs g = Ok (bb', bs', g') ->
    exists cs,
      samples shuffle self (List.length cs) g = Ok (cs, g')
      /\ (List.length cs <= n)%nat
      /\ best_is (pre ++ cs) bb' bs'
      /\ ((List.length cs = n
           /\ forall c, In c (pre ++ cs) -> ranked c = true ->
                        (double_score c <? 50)%float = false)
          \/ (exists cs0 c,
                cs = cs0 ++ [c] /\ valid c = true
                /\ (double_score c <? 50)%float = true /\ bb' = Some c
                /\ forall c', In c' (pre ++ cs0) -> ranked c' = true ->
                              (double_score c' <? 50)%float = false)).
Proof.
  induction n as [| n IH]; intros pre g bb bs bb' bs' g' Hbest Hpre Hrun.
  - simpl in Hrun. inversion Hrun; subst. exists []. simpl.
    rewrite app_nil_r. repeat split; auto.
  - simpl in Hrun.
    destruct (sampler_total g) as (board & g1 & Hs).
    rewrite Hs in Hrun. cbn [rbind] in Hrun.
    (* what the rest of the run gives, once [board] is accounted for *)
    assert (Hrest : forall bb1 bs1,
      best_is (pre ++ [board]) bb1 bs1 ->
      (forall c, In c (pre ++ [board]) -> ranked c = true ->
                 (double_score c <? 50)%float = false) ->
      attempts shuffle self n bb1 bs1 g1 = Ok (bb', bs', g') ->
      exists cs,
        samples shuffle self (List.length cs) g = Ok (cs, g')
        /\ (List.length cs <= S n)%nat
        /\ best_is (pre ++ cs) bb' bs'
        /\ ((List.length cs = S n
             /\ forall c, In c (pre ++ cs) -> ranked c = true ->
                          (double_score c <? 50)%float = false)
            \/ (exists cs0 c,
                  cs = cs0 ++ [c] /\ valid c = true
                  /\ (double_score c <? 50)%float = true /\ bb' = Some c
                  /\ forall c', In c' (pre ++ cs0) -> ranked c' = true ->
                                (double_score c' <? 50)%float = false))).
    { intros bb1 bs1 Hb1 Hp1 Hr1.
      destruct (IH (pre ++ [board]) g1 bb1 bs1 bb' bs' g' Hb1 Hp1 Hr1)
        as (cs & Hsam & Hlen & Hb & Hend).
      exists (board :: cs). rewrite <- app_assoc in Hb, Hend. simpl in Hb.
      split; [now apply (samples_cons g board g1) |].
      split; [simpl; lia |].
      split; [assumption |].
      destruct Hend as [[Hn Hall] | (cs0 & c & -> & Hv & Hlt & Hbb & Hall)].
      - left. split; [simpl; lia | exact Hall].
      - right. exists (board :: cs0), c. rewrite <- app_assoc in Hall.
        repeat split; assumption. }
    assert (Hunranked : ranked board = false ->
                        attempts shuffle self n bb bs g1 = Ok (bb', bs', g') ->
                        exists cs, _) by
      (intros Hv Hr; apply (Hrest bb bs);
       [ now apply best_is_skip
       | intros c Hc Hvc; apply in_app_or in Hc;
         destruct Hc as [Hc | [<- | []]]; [now apply Hpre | congruence]
       | assumption ]).
    assert (Hinvalid : valid board = false -> ranked board = false)
      by (intros Hv; unfold ranked; now rewrite Hv).
    destruct (check_adjacent_high_numbers board) eqn:Ha; cbn [negb] in Hrun;
      [| apply Hunranked;
         [apply Hinvalid; unfold valid; now rewrite Ha | assumption]].
    destruct (check_desert_placement board) eqn:Hd; cbn [negb] in Hrun;
      [| apply Hunranked;
         [apply Hinvalid; unfold valid; rewrite Ha, Hd; reflexivity
         | assumption]].
    assert (Hv : valid board = true) by (unfold valid; now rewrite Ha, Hd).
    rewrite double_score_board_ok in Hrun. cbn [rbind] in Hrun.
    destruct (double_score board <? bs)%float eqn:Hlt.
    + pose proof (best_is_replace pre bb bs board Hbest Hv Hlt) as Hnew.
      destruct (double_score board <? 50)%float eqn:Hlow.
      * (* break *)
        inversion Hrun; subst. exists [board].
        split; [simpl; rewrite Hs; reflexivity |].
        split; [simpl; lia |].
        split; [assumption |].
        right. exists [], board. rewrite app_nil_r.
        repeat split; assumption.
      * apply (Hrest (Some board) (double_score board)); try assumption.
        intros c Hc Hvc. apply in_app_or in Hc.
        destruct Hc as [Hc | [<- | []]]; [now apply Hpre | assumption].
    + destruct (ranked board) eqn:Hr; [| now apply Hunranked].
      destruct (best_is_keep pre bb bs board Hbest Hr Hlt)
        as (Hkeep & b & Hb & Hin & Hvb & Hle).
      apply (Hrest bb bs); try assumption.
      intros c Hc Hvc. apply in_app_or in Hc.
      destruct Hc as [Hc | [<- | []]]; [now apply Hpre |].
      specialize (Hpre b Hin Hvb).
      destruct (double_score board <? 50)%float eqn:E; [| reflexivity].
      rewrite (float_le_lt_trans _ _ _ Hle E) in Hpre. discriminate.
Qed.

End LoopFacts.

Section SearchFacts.

Context {P : Platform}.
Variable G : Type.
Variable shuffle : forall A : Type, list A -> G -> list A * G.
Hypothesis shuffle_perm :
  forall A (l : list A) g, Permutation (fst (shuffle A l g)) l.

Lemma profile_sampler_total name :
  In name profile_names ->
  forall g, exists board g',
    generate_candidate_board shuffle (CatanBoardGenerator name) g
    = Ok (board, g').
Proof.
  intros Hname g.
  destruct (profile_pools name Hname) as (ts & ns & Hfit & _).
  destruct (sample_ok G shuffle shuffle_perm _ ts ns g Hfit)
    as (board & g' & Hs & _).
  now exists board, g'.
Qed.

(** A sampled board of a profile has a hex. *)
Lemma profile_sample_nonempty name g board g' :
  In name profile_names ->
  generate_candidate_board shuffle (CatanBoardGenerator name) g
  = Ok (board, g') ->
  board <> [].
Proof.
  intros Hname Hs.
  destruct (profile_pools name Hname) as (ts & ns & Hfit & Hne).
  destruct (sample_ok G shuffle shuffle_perm _ ts ns g Hfit)
    as (board' & g'' & Hs' & Hpos & _).
  rewrite Hs in Hs'. inversion Hs'; subst board' g''.
  intros ->. simpl in Hpos. destruct ts; [congruence | discriminate].
Qed.

Lemma samples_sampled self :
  forall k g cs g',
    samples shuffle self k g = Ok (cs, g') ->
    forall c, In c cs ->
      exists g0 g1, generate_candidate_board shuffle self g0 = Ok (c, g1).
Proof.
  induction k as [| k IH]; intros g cs g' H c Hc; simpl in H.
  - inversion H; subst. contradiction.
  - destruct (generate_candidate_board shuffle self g) as [[b g1] |] eqn:Hs;
      [| discriminate].
    cbn [rbind] in H.
    destruct (samples shuffle self k g1) as [[bs g2] |] eqn:Hr;
      [| discriminate].
    cbn [rbind] in H. inversion H; subst.
    destruct Hc as [<- | Hc]; [now exists g, g1 |].
    exact (IH g1 bs g' Hr c Hc).
Qed.

(** C1: on a profile and with [max_attempts >= 1], on every platform, when
    the loop ends with a best board [b] (the validated path), [generate]
    returns [b] and draws no further sample; [b] passes both hard
    constraints; [s] is the score [_score_board] returns for [b], a double
    below [inf]; among the candidates [cs] sampled by the loop, [b] is the
    first one of least score among those that pass both constraints and
    whose score is a number (every such candidate scores at least as much,
    every earlier one strictly more; a NaN has no order); and the loop
    either ran all [max_attempts] iterations without a valid candidate
    below 50, or stopped at [b], the last candidate sampled and the first
    valid one below 50. Scores are compared as the program compares them,
    in doubles. *)
Theorem generate_returns_first_best
  (name : string) (max_attempts : Z) (g : G)
  (b : Board) (s : float) (g' : G) :
  In name profile_names ->
  1 <= max_attempts ->
  attempts shuffle (CatanBoardGenerator name) (Z.to_nat max_attempts)
           None infinity g = Ok (Some b, s, g') ->
  generate shuffle name max_attempts g = Ok (b, g')
  /\ check_adjacent_high_numbers b = true
  /\ check_desert_placement b = true
  /\ Double.score_board b = Ok s
  /\ (s <? infinity)%float = true
  /\ exists cs i,
       samples shuffle (CatanBoardGenerator name) (List.length cs) g
       = Ok (cs, g')
       /\ (1 <= List.length cs <= Z.to_nat max_attempts)%nat
       /\ nth_error cs i = Some b
       /\ (forall j c sc,
             nth_error cs j = Some c -> valid c = true ->
             Double.score_board c = Ok sc -> is_nan sc = false ->
             (s <=? sc)%float = true
             /\ ((j < i)%nat -> (s <? sc)%float = true))
       /\ ((List.length cs = Z.to_nat max_attempts
            /\ forall c sc, In c cs -> valid c = true ->
                 Double.score_board c = Ok sc -> (sc <? 50)%float = false)
           \/ (S i = List.length cs /\ (s <? 50)%float = true
               /\ forall j c sc, (j < i)%nat -> nth_error cs j = Some c ->
                    valid c = true -> Double.score_board c = Ok sc ->
                    (sc <? 50)%float = false)).
Proof.
  intros Hname Hmax Hrun.
  destruct (attempts_inv G shuffle (CatanBoardGenerator name)
              (profile_sampler_total name Hname)
              (Z.to_nat max_attempts) [] g None infinity (Some b) s g')
    as (cs & Hsam & Hlen & Hbest & Hend); try assumption.
  { simpl. split; [reflexivity | intros c []]. }
  { intros c []. }
  simpl in Hbest, Hend.
  destruct Hbest as [Hs (i & Hi & Hr & Hmin)].
  pose proof (ranked_valid b Hr) as Hv.
  pose proof (ranked_below_inf b Hr) as Hfin.
  apply valid_split in Hv. destruct Hv as [Ha Hd].
  assert (Hne : b <> []).
  { destruct (samples_sampled _ _ _ _ _ Hsam b (nth_error_In _ _ Hi))
      as (g0 & g1 & Hs0).
    exact (profile_sample_nonempty name g0 b g1 Hname Hs0). }
  assert (Hsc : forall c sc, Double.score_board c = Ok sc ->
                             sc = double_score c).
  { intros c sc H. rewrite double_score_board_ok in H. now inversion H. }
  subst s.
  split.
  { unfold generate, generate_board. rewrite Hrun. cbn [rbind].
    destruct b; [congruence | reflexivity]. }
  repeat (split; [first [assumption | exact (double_score_board_ok b)] |]).
  exists cs, i. split; [assumption |].
  assert (Hi' : (i < List.length cs)%nat) by (apply nth_error_Some; congruence).
  split; [lia |]. split; [assumption |]. split.
  { intros j c sc Hc Hvc Hscore Hnan. apply Hsc in Hscore. subst sc.
    destruct (ranked c) eqn:Hrc; [now apply Hmin |].
    assert (Hinf : (double_score c <? infinity)%float = false).
    { unfold ranked in Hrc. rewrite Hvc in Hrc. exact Hrc. }
    pose proof (float_lt_not_below _ _ Hfin Hnan Hinf) as Hlt.
    split; [now apply float_lt_le | intros _; exact Hlt]. }
  destruct Hend as [[Hn Hall] | (cs0 & c & -> & Hvc & Hlt & Hbb & Hall)].
  - left. split; [assumption |].
    intros c sc Hc Hvc Hscore. apply Hsc in Hscore. subst sc.
    now apply (proj1 (none_below_fifty cs) Hall).
  - right. inversion Hbb; subst c.
    rewrite length_app in Hi' |- *. simpl in Hi' |- *.
    assert (Ei : i = List.length cs0).
    { destruct (Nat.eq_dec i (List.length cs0)) as [E | E]; [assumption |].
      exfalso. rewrite nth_error_app1 in Hi by lia.
      apply nth_error_In in Hi.
      rewrite (Hall b Hi Hr) in Hlt. discriminate. }
    split; [lia |]. split; [exact Hlt |].
    intros j c sc Hj Hc Hvc' Hscore. apply Hsc in Hscore. subst sc.
    apply (proj1 (none_below_fifty cs0) Hall); [| assumption].
    rewrite nth_error_app1 in Hc by lia. now apply nth_error_In in Hc.
Qed.

(** A run of samples that are all invalid leaves the loop state as it
    was. *)
Lemma attempts_all_invalid self :
  forall n g bb bs cs g1,
    samples shuffle self n g = Ok (cs, g1) ->
    (forall c, In c cs -> valid c = false) ->
    attempts shuffle self n bb bs g = Ok (bb, bs, g1).
Proof.
  induction n as [| n IH]; intros g bb bs cs g1 Hsam Hall; simpl in *.
  - now inversion Hsam.
  - destruct (generate_candidate_board shuffle self g) as [[b g2] |] eqn:Hs;
      [| discriminate].
    cbn [rbind] in *.
    destruct (samples shuffle self n g2) as [[cs' g3] |] eqn:Hr;
      [| discriminate].
    cbn [rbind] in Hsam. inversion Hsam; subst.
    assert (Hb : valid b = false) by (apply Hall; now left).
    assert (Hrest : attempts shuffle self n bb bs g2 = Ok (bb, bs, g1)).
    { apply (IH g2 bb bs cs'); [assumption |].
      intros c Hc. apply Hall. now right. }
    unfold valid in Hb. apply andb_false_iff in Hb.
    destruct (check_adjacent_high_numbers b); cbn [negb]; [| assumption].
    destruct Hb as [Hb | Hb]; [discriminate |].
    rewrite Hb. cbn [negb]. assumption.
Qed.

(** The fallback path on a profile. *)
Lemma fallback_path name max_attempts g cs g1 :
  In name profile_names ->
  samples shuffle (CatanBoardGenerator name) (Z.to_nat max_attempts) g
  = Ok (cs, g1) ->
  (forall c, In c cs -> valid c = false) ->
  exists b g2,
    generate_candidate_board shuffle (CatanBoardGenerator name) g1
    = Ok (b, g2)
    /\ generate shuffle name max_attempts g = Ok (b, g2).
Proof.
  intros Hname Hsam Hall.
  destruct (profile_sampler_total name Hname g1) as (b & g2 & Hs).
  exists b, g2. split; [assumption |].
  unfold generate, generate_board.
  rewrite (attempts_all_invalid _ _ g None infinity cs g1 Hsam Hall).
  cbn [rbind]. assumption.
Qed.

End SearchFacts.

(** ** Runs on the replayable random source *)

Lemma example_first_sample :
  generate_candidate_board replay (CatanBoardGenerator "base") example_rng
  = Ok (pool_order_board, tl (tl example_rng)).
Proof. vm_compute. reflexivity. Qed.


Lemma pool_order_sample :
  generate_candidate_board replay (CatanBoardGenerator "base") []
  = Ok (pool_order_board, []).
Proof. vm_compute. reflexivity. Qed.

Lemma pool_order_board_invalid : valid pool_order_board = false.
Proof. vm_compute. reflexivity. Qed.

Lemma example_board_valid : valid example_board = true.
Proof. vm_compute. reflexivity. Qed.

(** The score of [example_board], 5 sqrt 19.44 + 6 as a real number, is
    the double 28.045407685048602. *)
Lemma example_board_score :
  (double_score example_board <? 50)%float = true
  /\ (28 <? double_score example_board)%float = true
  /\ (double_score example_board <? 29)%float = true.
Proof. vm_compute. repeat split. Qed.

(** The run draws [pool_order_board], which fails the constraints, then
    [example_board], and stops there. *)
Lemma example_run :
  attempts replay (CatanBoardGenerator "base") (Z.to_nat 1000) None infinity
           example_rng
  = Ok (Some example_board, double_score example_board, []).
Proof. vm_compute. reflexivity. Qed.

Lemma generate_returns_first_best_witness :
  (forall A (l : list A) g, Permutation (fst (replay A l g)) l)
  /\ In "base" profile_names
  /\ 1 <= 1000
  /\ attempts replay (CatanBoardGenerator "base") (Z.to_nat 1000) None
              infinity example_rng
     = Ok (Some example_board, double_score example_board, [])
  /\ generate replay "base" 1000 example_rng = Ok (example_board, [])
  /\ check_adjacent_high_numbers example_board = true
  /\ check_desert_placement example_board = true
  /\ Double.score_board example_board = Ok (double_score example_board).
Proof.
  assert (Hname : In "base" profile_names) by in_names.
  assert (Hmax : 1 <= 1000) by lia.
  pose proof (generate_returns_first_best
                (list (list nat)) replay replay_perm
                "base" 1000 example_rng example_board
                (double_score example_board) []
                Hname Hmax example_run) as T.
  destruct T as (Hgen & Ha & Hd & Hs & _).
  exact (conj replay_perm
           (conj Hname
              (conj Hmax
                 (conj example_run
                    (conj Hgen (conj Ha (conj Hd Hs))))))).
Defined.

Lemma sample_preserves_profile_witness :
  (forall A (l : list A) g, Permutation (fst (replay A l g)) l)
  /\ In "base" profile_names
  /\ exists ts ns board g',
       terrains (CatanBoardGenerator "base") = Some ts
       /\ numbers (CatanBoardGenerator "base") = Some ns
       /\ generate_candidate_board replay (CatanBoardGenerator "base")
                                   example_rng
          = Ok (board, g')
       /\ map position board = map Z.of_nat (seq 0 (List.length ts))
       /\ Permutation (map terrain board) ts
       /\ Permutation (tokens_on board) ns
       /\ (forall h, In h board ->
             (terrain h = Desert -> number h = None)
             /\ (terrain h <> Desert -> exists n, number h = Some n)).
Proof.
  assert (Hname : In "base" profile_names) by in_names.
  exact (conj replay_perm
           (conj Hname
              (sample_preserves_profile (list (list nat)) replay replay_perm
                 "base" example_rng Hname))).
Defined.

(** ** The fallback path *)

Lemma pool_order_samples :
  samples replay (CatanBoardGenerator "base") (Z.to_nat 5) []
  = Ok (repeat pool_order_board 5, []).
Proof. vm_compute. reflexivity. Qed.

Lemma pool_order_samples_invalid :
  forall c, In c (repeat pool_order_board 5) -> valid c = false.
Proof.
  intros c Hc. apply repeat_spec in Hc. subst c.
  exact pool_order_board_invalid.
Qed.

Lemma pool_order_fallback {P : Platform} :
  generate replay "base" 5 [] = Ok (pool_order_board, []).
Proof.
  assert (Hname : In "base" profile_names) by in_names.
  destruct (fallback_path (list (list nat)) replay replay_perm "base" 5 []
              _ _ Hname pool_order_samples pool_order_samples_invalid)
    as (b & g2 & Hs & Hg).
  rewrite pool_order_sample in Hs. inversion Hs; subst. exact Hg.
Qed.

(** C6: on a profile, when none of the [max_attempts] candidates of the
    loop passes both hard constraints, [generate] raises nothing and
    returns the next sample of the sampler as it is, neither scored nor
    checked; and such a board can break the constraints: the replayed run
    that always draws the pool order returns [pool_order_board], which
    fails them. *)
Theorem fallback_returns_unvalidated_sample (P : Platform) :
  (forall (G : Type) (shuffle : forall A : Type, list A -> G -> list A * G),
     (forall A (l : list A) g, Permutation (fst (shuffle A l g)) l) ->
     forall name max_attempts g cs g1,
       In name profile_names ->
       0 <= max_attempts ->
       samples shuffle (CatanBoardGenerator name) (Z.to_nat max_attempts) g
       = Ok (cs, g1) ->
       (forall c, In c cs -> valid c = false) ->
       exists b g2,
         generate_candidate_board shuffle (CatanBoardGenerator name) g1
         = Ok (b, g2)
         /\ generate shuffle name max_attempts g = Ok (b, g2))
  /\ (generate replay "base" 5 [] = Ok (pool_order_board, [])
      /\ valid pool_order_board = false).
Proof.
  split.
  - intros G shuffle Hperm name max_attempts g cs g1 Hname _ Hsam Hall.
    exact (fallback_path G shuffle Hperm name max_attempts g cs g1
             Hname Hsam Hall).
  - split; [exact pool_order_fallback | exact pool_order_board_invalid].
Qed.

Lemma fallback_returns_unvalidated_sample_witness :
  (forall A (l : list A) g, Permutation (fst (replay A l g)) l)
  /\ In "base" profile_names
  /\ 0 <= 5
  /\ samples replay (CatanBoardGenerator "base") (Z.to_nat 5) []
     = Ok (repeat pool_order_board 5, [])
  /\ (forall c, In c (repeat pool_order_board 5) -> valid c = false)
  /\ exists b g2,
       generate_candidate_board replay (CatanBoardGenerator "base") []
       = Ok (b, g2)
       /\ generate replay "base" 5 [] = Ok (b, g2).
Proof.
  assert (Hname : In "base" profile_names) by in_names.
  assert (Hmax : 0 <= 5) by lia.
  exact (conj replay_perm
           (conj Hname (conj Hmax (conj pool_order_samples
              (conj pool_order_samples_invalid
                 (proj1 (fallback_returns_unvalidated_sample left_to_right)
                    (list (list nat)) replay replay_perm "base" 5 [] _ _
                    Hname Hmax pool_order_samples
                    pool_order_samples_invalid)))))).
Defined.

(** ** Unknown profile names *)

Lemma setup_unknown name :
  ~ In name profile_names -> setup_distribution name = (None, None).
Proof.
  intros H. unfold setup_distribution.
  destruct (String.eqb_spec name "base") as [-> | _];
    [exfalso; apply H; simpl; auto |].
  destruct (String.eqb_spec name "5-6player") as [-> | _];
    [exfalso; apply H; simpl; auto |].
  destruct (String.eqb_spec name "custom") as [-> | _];
    [exfalso; apply H; simpl; auto |].
  reflexivity.
Qed.

(** Without pools the first read of [self.terrains] raises, in the loop or,
    when the loop has no iteration, in the fallback. *)
Lemma generate_without_pools {P : Platform} {G}
  shuffle name max_attempts (g : G) :
  generate_board shuffle (mkGenerator name None None) max_attempts g
  = Raise AttributeError.
Proof.
  unfold generate_board.
  destruct (Z.to_nat max_attempts) as [| n]; reflexivity.
Qed.

Lemma generate_unknown {P : Platform} {G}
  shuffle name max_attempts (g : G) :
  ~ In name profile_names ->
  CatanBoardGenerator name = mkGenerator name None None
  /\ generate shuffle name max_attempts g = Raise AttributeError.
Proof.
  intros H. unfold generate, CatanBoardGenerator.
  rewrite (setup_unknown name H).
  split; [reflexivity | apply generate_without_pools].
Qed.

(** C7 (as stated, refuted): for the name "hexagon", outside the
    specification's profile names, the constructor succeeds, leaving a
    generator without pools, and [generate] raises [AttributeError] from
    the sampler, not an InvalidConfiguration error; and for "5-6player",
    outside the names as the specification spells them, [generate] returns
    a board. *)
Lemma generate_unknown_counterexample :
  ~ In "hexagon" spec_profile_names
  /\ CatanBoardGenerator "hexagon" = mkGenerator "hexagon" None None
  /\ generate replay "hexagon" 1000 [] = Raise AttributeError
  /\ AttributeError <> InvalidConfiguration
  /\ ~ In "5-6player" spec_profile_names
  /\ exists b g', generate replay "5-6player" 0 [] = Ok (b, g').
Proof.
  assert (Hhex : ~ In "hexagon" profile_names) by not_in_names.
  destruct (generate_unknown replay "hexagon" 1000 [] Hhex) as [Hinit Hgen].
  split; [not_in_names |].
  split; [exact Hinit |].
  split; [exact Hgen |].
  split; [discriminate |].
  split; [not_in_names |].
  assert (Hname : In "5-6player" profile_names) by in_names.
  destruct (fallback_path (list (list nat)) replay replay_perm
              "5-6player" 0 [] [] [] Hname eq_refl (fun c H => match H with end))
    as (b & g2 & _ & Hg).
  now exists b, g2.
Qed.

(** C7 (amended): for every name other than "base", "5-6player" and
    "custom", the constructor leaves the generator without terrain and
    number pools, and [generate] raises [AttributeError] for every
    [max_attempts], at its first call of the sampler; it returns no
    board. *)
Theorem generate_unknown_profile
  (P : Platform)
  (G : Type) (shuffle : forall A : Type, list A -> G -> list A * G)
  (name : string) (max_attempts : Z) (g : G) :
  ~ In name profile_names ->
  CatanBoardGenerator name = mkGenerator name None None
  /\ generate shuffle name max_attempts g = Raise AttributeError
  /\ generate_candidate_board shuffle (CatanBoardGenerator name) g
     = Raise AttributeError.
Proof.
  intros H. destruct (generate_unknown shuffle name max_attempts g H)
    as [Hinit Hgen].
  repeat split; try assumption. now rewrite Hinit.
Qed.

Lemma generate_unknown_profile_witness :
  ~ In "hexagon" profile_names
  /\ CatanBoardGenerator "hexagon" = mkGenerator "hexagon" None None
  /\ generate replay "hexagon" 1000 [] = Raise AttributeError
  /\ generate_candidate_board replay (CatanBoardGenerator "hexagon") []
     = Raise AttributeError.
Proof.
  assert (Hhex : ~ In "hexagon" profile_names) by not_in_names.
  exact (conj Hhex
           (generate_unknown_profile left_to_right (list (list nat)) replay
              "hexagon" 1000 [] Hhex)).
Defined.

(** * Further properties of the code *)

(** ** Pip table and dice *)

Lemma filter_none {A} (f : A -> bool) l :
  (forall x, In x l -> f x = false) -> filter f l = [].
Proof.
  induction l as [| x l IH]; intros H; simpl; [reflexivity |].
  rewrite (H x) by now left. apply IH. intros y Hy. apply H. now right.
Qed.

Lemma two_dice_ways_outside n : ~ 2 <= n <= 12 -> two_dice_ways n = 0.
Proof.
  intros H. unfold two_dice_ways. rewrite filter_none; [reflexivity |].
  intros [a b] Hin. apply in_prod_iff in Hin. destruct Hin as [Ha Hb].
  unfold die in Ha, Hb. simpl in Ha, Hb. apply Z.eqb_neq. lia.
Qed.

Lemma get_pip_count_outside n : ~ 2 <= n <= 12 -> get_pip_count (Some n) = 0.
Proof.
  intros H. unfold get_pip_count, pip_map, dict_get.
  repeat match goal with
  | |- context [n =? ?k] => destruct (Z.eqb_spec n k); [lia |]
  end.
  reflexivity.
Qed.

Lemma token_cases n : 2 <= n <= 12 -> In n (map Z.of_nat (seq 2 11)).
Proof. intros H. simpl. lia. Qed.

(** X1: [get_pip_count] gives, for every integer other than 7, the number
    of ways two dice roll it (0 outside 2..12); at 7 it gives 0, where the
    dice have six ways; and it is symmetric around 7. *)
Theorem get_pip_count_counts_dice_rolls (n : Z) :
  n <> 7 ->
  get_pip_count (Some n) = two_dice_ways n
  /\ get_pip_count (Some n) = get_pip_count (Some (14 - n))
  /\ get_pip_count (Some 7) = 0 /\ two_dice_ways 7 = 6.
Proof.
  intros H7.
  assert (Hcases : ~ 2 <= n <= 12 \/ 2 <= n <= 12) by lia.
  destruct Hcases as [Hout | Hin].
  - rewrite (get_pip_count_outside n Hout), (two_dice_ways_outside n Hout).
    rewrite (get_pip_count_outside (14 - n)) by lia. repeat split.
  - apply token_cases in Hin. simpl in Hin.
    repeat (destruct Hin as [<- | Hin];
            [first [congruence | repeat split] |]).
    contradiction.
Qed.

Lemma get_pip_count_counts_dice_rolls_witness :
  8 <> 7
  /\ get_pip_count (Some 8) = two_dice_ways 8
  /\ get_pip_count (Some 8) = get_pip_count (Some (14 - 8)).
Proof.
  assert (H : 8 <> 7) by lia.
  destruct (get_pip_count_counts_dice_rolls 8 H) as (H1 & H2 & _).
  exact (conj H (conj H1 H2)).
Defined.

(** ** What [generate_board] returns on a profile *)

Section GenerateFacts.

Context {P : Platform}.
Variable G : Type.
Variable shuffle : forall A : Type, list A -> G -> list A * G.
Hypothesis shuffle_perm :
  forall A (l : list A) g, Permutation (fst (shuffle A l g)) l.

Lemma samples_length self :
  forall k g cs g', samples shuffle self k g = Ok (cs, g') -> List.length cs = k.
Proof.
  induction k as [| k IH]; intros g cs g' H; simpl in H.
  - now inversion H.
  - destruct (generate_candidate_board shuffle self g) as [[b g1] |];
      [| discriminate].
    cbn [rbind] in H.
    destruct (samples shuffle self k g1) as [[bs g2] |] eqn:Hr;
      [| discriminate].
    cbn [rbind] in H. inversion H; subst. simpl. f_equal. exact (IH _ _ _ Hr).
Qed.

(** The first [k] of [n] samples are the [k] samples. *)
Lemma samples_firstn self :
  forall n k g cs g1,
    samples shuffle self n g = Ok (cs, g1) -> (k <= n)%nat ->
    exists g2, samples shuffle self k g = Ok (firstn k cs, g2).
Proof.
  induction n as [| n IH]; intros k g cs g1 H Hk; simpl in H.
  - inversion H; subst. replace k with 0%nat by lia. now exists g1.
  - destruct k as [| k]; [now exists g |].
    destruct (generate_candidate_board shuffle self g) as [[b g2] |] eqn:Hs;
      [| discriminate].
    cbn [rbind] in H.
    destruct (samples shuffle self n g2) as [[bs g3] |] eqn:Hr;
      [| discriminate].
    cbn [rbind] in H. inversion H; subst.
    destruct (IH k g2 bs g1 Hr) as (g4 & Hk'); [lia |].
    exists g4. simpl. rewrite Hs. cbn [rbind]. rewrite Hk'. reflexivity.
Qed.

Lemma attempts_ok self :
  (forall g, exists board g',
      generate_candidate_board shuffle self g = Ok (board, g')) ->
  forall n bb bs g, exists bb' bs' g',
    attempts shuffle self n bb bs g = Ok (bb', bs', g').
Proof.
  intros Htotal. induction n as [| n IH]; intros bb bs g; simpl.
  - now exists bb, bs, g.
  - destruct (Htotal g) as (board & g1 & ->). cbn [rbind].
    destruct (negb (check_adjacent_high_numbers board)); [apply IH |].
    destruct (negb (check_desert_placement board)); [apply IH |].
    rewrite double_score_board_ok. cbn [rbind].
    destruct (double_score board <? bs)%float; [| apply IH].
    destruct (double_score board <? 50)%float; [| apply IH].
    now exists (Some board), (double_score board), g1.
Qed.

(** Every board the sampler returns on a profile is dealt from its
    pools. *)
Lemma profile_sample_dealt name ts ns g board g' :
  pools_fit (CatanBoardGenerator name) ts ns ->
  generate_candidate_board shuffle (CatanBoardGenerator name) g
  = Ok (board, g') ->
  well_dealt ts ns board.
Proof.
  intros Hfit Hs.
  destruct (sample_ok G shuffle shuffle_perm _ ts ns g Hfit)
    as (board' & g'' & Hs' & Hp & Ht & Hn & Hok).
  rewrite Hs in Hs'. inversion Hs'; subst. repeat split; assumption.
Qed.

(** What the loop leaves and what [generate] then returns. *)
Lemma generate_outcome name max_attempts g :
  In name profile_names ->
  exists bb bs g1 cs,
    attempts shuffle (CatanBoardGenerator name) (Z.to_nat max_attempts)
             None infinity g = Ok (bb, bs, g1)
    /\ samples shuffle (CatanBoardGenerator name) (List.length cs) g
       = Ok (cs, g1)
    /\ (List.length cs <= Z.to_nat max_attempts)%nat
    /\ best_is cs bb bs
    /\ (List.length cs = Z.to_nat max_attempts \/ bb <> None)
    /\ match bb with
       | Some b => generate shuffle name max_attempts g = Ok (b, g1)
       | None =>
           generate shuffle name max_attempts g
           = generate_candidate_board shuffle (CatanBoardGenerator name) g1
       end.
Proof.
  intros Hname.
  pose proof (profile_sampler_total G shuffle shuffle_perm name Hname)
    as Htotal.
  destruct (attempts_ok _ Htotal (Z.to_nat max_attempts) None infinity g)
    as (bb & bs & g1 & Hrun).
  destruct (attempts_inv G shuffle _ Htotal (Z.to_nat max_attempts) []
              g None infinity bb bs g1) as (cs & Hsam & Hlen & Hbest & Hend);
    try assumption.
  { simpl. split; [reflexivity | intros c []]. }
  { intros c []. }
  simpl in Hbest, Hend.
  exists bb, bs, g1, cs. repeat (split; [assumption |]).
  split.
  { destruct Hend as [[Hn _] | (cs0 & c & _ & _ & _ & -> & _)];
      [now left | right; discriminate]. }
  unfold generate, generate_board. rewrite Hrun. cbn [rbind].
  destruct bb as [b |]; [| reflexivity].
  simpl in Hbest. destruct Hbest as [_ (i & Hi & _)].
  destruct (samples_sampled G shuffle _ _ _ _ _ Hsam b (nth_error_In _ _ Hi))
    as (g0 & g2 & Hs0).
  pose proof (profile_sample_nonempty G shuffle shuffle_perm
                name g0 b g2 Hname Hs0) as Hne.
  destruct b; [congruence | reflexivity].
Qed.

(** Whichever path it takes, [generate] returns a sampled board. *)
Lemma generate_dealt
  (name : string) (max_attempts : Z) (g : G) :
  In name profile_names ->
  exists ts ns b g',
    terrains (CatanBoardGenerator name) = Some ts
    /\ numbers (CatanBoardGenerator name) = Some ns
    /\ generate shuffle name max_attempts g = Ok (b, g')
    /\ well_dealt ts ns b.
Proof.
  intros Hname.
  destruct (profile_pools name Hname) as (ts & ns & Hfit & _).
  destruct (generate_outcome name max_attempts g Hname)
    as (bb & bs & g1 & cs & _ & Hsam & _ & Hbest & _ & Hgen).
  exists ts, ns.
  assert (Hres : exists b g',
             generate shuffle name max_attempts g = Ok (b, g')
             /\ exists g0 g2,
                  generate_candidate_board shuffle (CatanBoardGenerator name) g0
                  = Ok (b, g2)).
  { destruct bb as [b |].
    - exists b, g1. split; [assumption |].
      simpl in Hbest. destruct Hbest as [_ (i & Hi & _)].
      exact (samples_sampled G shuffle _ _ _ _ _ Hsam b
               (nth_error_In _ _ Hi)).
    - destruct (profile_sampler_total G shuffle shuffle_perm name Hname g1)
        as (b & g2 & Hs).
      exists b, g2. split; [congruence | now exists g1, g2]. }
  destruct Hres as (b & g' & Hg & g0 & g2 & Hs).
  exists b, g'. destruct Hfit as (Ets & Ens & Hn).
  repeat (split; [assumption |]).
  apply (profile_sample_dealt name ts ns g0 b g2); [| assumption].
  repeat split; assumption.
Qed.

(** X2: on a profile, for every [max_attempts] (also 0 or negative),
    [generate] raises nothing and returns a board dealt from the pools of
    the profile: one hex per position 0..N-1, the terrain pool and the
    number pool each used exactly once, no number on a Desert. *)
Theorem generate_returns_dealt_board
  (name : string) (max_attempts : Z) (g : G) :
  In name profile_names ->
  exists ts ns b g',
    terrains (CatanBoardGenerator name) = Some ts
    /\ numbers (CatanBoardGenerator name) = Some ns
    /\ generate shuffle name max_attempts g = Ok (b, g')
    /\ well_dealt ts ns b.
Proof.
  intros Hname.
  destruct (generate_dealt name max_attempts g Hname)
    as (ts & ns & b & g' & Hts & Hns & Hgen & Hdealt).
  now exists ts, ns, b, g'.
Qed.

(** With a ranked candidate among the samples the result is valid. *)
Lemma generate_valid
  (name : string) (max_attempts : Z) (g : G) (cs : list Board) (g1 : G) :
  In name profile_names ->
  samples shuffle (CatanBoardGenerator name) (Z.to_nat max_attempts) g
  = Ok (cs, g1) ->
  (exists c sc, In c cs /\ valid c = true
                /\ Double.score_board c = Ok sc
                /\ (sc <? infinity)%float = true) ->
  exists b g',
    generate shuffle name max_attempts g = Ok (b, g')
    /\ In b cs
    /\ check_adjacent_high_numbers b = true
    /\ check_desert_placement b = true.
Proof.
  intros Hname Hall (c & sc & Hc & Hvc0 & Hsc & Hfin).
  assert (Hvc : ranked c = true).
  { rewrite double_score_board_ok in Hsc. inversion Hsc; subst sc.
    unfold ranked. now rewrite Hvc0, Hfin. }
  destruct (generate_outcome name max_attempts g Hname)
    as (bb & bs & g2 & cs' & _ & Hsam & Hlen & Hbest & Hend & Hgen).
  destruct (samples_firstn _ _ _ _ _ _ Hall Hlen) as (g3 & Hpre).
  rewrite Hsam in Hpre. inversion Hpre as [[Hcs Hg]].
  destruct bb as [b |].
  - simpl in Hbest. destruct Hbest as [_ (i & Hi & Hv & _)].
    exists b, g2. split; [assumption |].
    apply ranked_valid, valid_split in Hv.
    split; [| exact Hv].
    apply nth_error_In in Hi. rewrite Hcs in Hi.
    rewrite <- (firstn_skipn (List.length cs') cs).
    apply in_or_app. now left.
  - exfalso. simpl in Hbest. destruct Hbest as [_ Hnone].
    destruct Hend as [Hn | Hn]; [| congruence].
    pose proof (samples_length _ _ _ _ _ Hall) as Hl.
    rewrite Hcs, Hn, <- Hl, firstn_all in Hnone.
    rewrite (Hnone c Hc) in Hvc. discriminate.
Qed.

(** X3: on a profile and on every platform, if one of the [max_attempts]
    candidates the sampler would deal passes both hard constraints and has
    a score below [float('inf')] (every score is, but [inf] and NaN),
    [generate] returns one of these candidates and it passes both
    constraints: the unvalidated fallback is taken only when no candidate
    is recorded. *)
Theorem generate_valid_when_a_candidate_is
  (name : string) (max_attempts : Z) (g : G) (cs : list Board) (g1 : G) :
  In name profile_names ->
  samples shuffle (CatanBoardGenerator name) (Z.to_nat max_attempts) g
  = Ok (cs, g1) ->
  (exists c sc, In c cs /\ valid c = true
                /\ Double.score_board c = Ok sc
                /\ (sc <? infinity)%float = true) ->
  exists b g',
    generate shuffle name max_attempts g = Ok (b, g')
    /\ In b cs
    /\ check_adjacent_high_numbers b = true
    /\ check_desert_placement b = true.
Proof.
  intros Hname Hall Hc.
  exact (generate_valid name max_attempts g cs g1 Hname Hall Hc).
Qed.

End GenerateFacts.

Lemma generate_returns_dealt_board_witness :
  (forall A (l : list A) g, Permutation (fst (replay A l g)) l)
  /\ In "5-6player" profile_names
  /\ exists ts ns b g',
       terrains (CatanBoardGenerator "5-6player") = Some ts
       /\ numbers (CatanBoardGenerator "5-6player") = Some ns
       /\ generate replay "5-6player" (-3) example_rng = Ok (b, g')
       /\ well_dealt ts ns b.
Proof.
  assert (Hname : In "5-6player" profile_names) by in_names.
  exact (conj replay_perm
           (conj Hname
              (generate_returns_dealt_board (list (list nat)) replay
                 replay_perm "5-6player" (-3) example_rng Hname))).
Defined.

Lemma example_samples :
  samples replay (CatanBoardGenerator "base") (Z.to_nat 3) example_rng
  = Ok ([pool_order_board; example_board; pool_order_board], []).
Proof. vm_compute. reflexivity. Qed.

Lemma example_candidate :
  exists c sc, In c [pool_order_board; example_board; pool_order_board]
               /\ valid c = true
               /\ Double.score_board c = Ok sc
               /\ (sc <? infinity)%float = true.
Proof.
  exists example_board, (double_score example_board).
  split; [simpl; tauto |]. split; [exact example_board_valid |].
  split; vm_compute; reflexivity.
Qed.

Lemma generate_valid_when_a_candidate_is_witness :
  (forall A (l : list A) g, Permutation (fst (replay A l g)) l)
  /\ In "base" profile_names
  /\ samples replay (CatanBoardGenerator "base") (Z.to_nat 3) example_rng
     = Ok ([pool_order_board; example_board; pool_order_board], [])
  /\ (exists c sc, In c [pool_order_board; example_board; pool_order_board]
                   /\ valid c = true
                   /\ Double.score_board c = Ok sc
                   /\ (sc <? infinity)%float = true)
  /\ exists b g',
       generate replay "base" 3 example_rng = Ok (b, g')
       /\ In b [pool_order_board; example_board; pool_order_board]
       /\ check_adjacent_high_numbers b = true
       /\ check_desert_placement b = true.
Proof.
  assert (Hname : In "base" profile_names) by in_names.
  exact (conj replay_perm
           (conj Hname
              (conj example_samples
                 (conj example_candidate
                    (generate_valid_when_a_candidate_is
                       (list (list nat)) replay replay_perm "base" 3
                       example_rng _ _ Hname example_samples
                       example_candidate))))).
Defined.

(** ** The sampler on pools that do not fit *)

Lemma getitem_past_end {A} (l : list A) k :
  len l <= k -> getitem l k = Raise IndexError.
Proof.
  intros Hk. unfold getitem. cbv zeta.
  pose proof (len_nonneg l) as Hl.
  assert (E0 : (k <? 0) = false) by (apply Z.ltb_ge; lia).
  rewrite !E0.
  assert (E : nth_error l (Z.to_nat k) = None).
  { apply nth_error_None. unfold len in Hk. lia. }
  now rewrite E.
Qed.

(** The placing loop runs out of numbers. *)
Lemma place_loop_short (sn : list Z) (ts : list string) :
  forall i board k,
    0 <= k <= len sn -> len sn < k + numbered ts ->
    for_each (enumerate_from i ts) (board, k) (place_hex sn)
    = Raise IndexError.
Proof.
  induction ts as [| t ts IH]; intros i board k Hk Hlen.
  - unfold numbered in Hlen. simpl in Hlen. unfold len in Hlen at 2.
    simpl in Hlen. lia.
  - rewrite numbered_cons in Hlen.
    cbn [for_each enumerate_from]. unfold place_hex at 1.
    destruct (String.eqb_spec t Desert) as [Ed | Hnd].
    + cbn [rbind negb]. apply IH; [assumption | lia].
    + destruct (Z.eq_dec k (len sn)) as [-> | Hne].
      * rewrite getitem_past_end by lia. reflexivity.
      * destruct (getitem_in_range sn k) as (v & Hget & _); [lia |].
        rewrite Hget. cbn [rbind negb]. apply IH; lia.
Qed.

Section SamplerFacts.

Context {P : Platform}.
Variable G : Type.
Variable shuffle : forall A : Type, list A -> G -> list A * G.
Hypothesis shuffle_perm :
  forall A (l : list A) g, Permutation (fst (shuffle A l g)) l.

Lemma sample_short self ts ns g :
  terrains self = Some ts -> numbers self = Some ns ->
  len ns < numbered ts ->
  generate_candidate_board shuffle self g = Raise IndexError.
Proof.
  intros Ht Hn Hshort. unfold generate_candidate_board.
  rewrite Ht, Hn. cbn [getattr rbind].
  pose proof (shuffle_perm _ ts g) as Pt.
  destruct (shuffle string ts g) as [st g1]. cbn [fst] in Pt.
  pose proof (shuffle_perm _ ns g1) as Pn.
  destruct (shuffle Z ns g1) as [sn g2]. cbn [fst] in Pn.
  assert (Elen : len sn = len ns).
  { unfold len. now rewrite (Permutation_length Pn). }
  unfold enumerate.
  match goal with
  | |- context [for_each ?l ?s ?b] =>
      replace (for_each l s b) with (@Raise (Board * Z) IndexError)
  end; [reflexivity |].
  symmetry. apply place_loop_short.
  - pose proof (len_nonneg sn). lia.
  - rewrite (numbered_perm st ts Pt). lia.
Qed.

Lemma sample_surplus self ts ns g :
  terrains self = Some ts -> numbers self = Some ns ->
  numbered ts <= len ns ->
  exists board g' rest,
    generate_candidate_board shuffle self g = Ok (board, g')
    /\ Permutation (tokens_on board ++ rest) ns
    /\ len (tokens_on board) = numbered ts
    /\ map position board = map Z.of_nat (seq 0 (List.length ts))
    /\ Permutation (map terrain board) ts
    /\ Forall tile_ok board.
Proof.
  intros Ht Hn Hfit. unfold generate_candidate_board.
  rewrite Ht, Hn. cbn [getattr rbind].
  pose proof (shuffle_perm _ ts g) as Pt.
  destruct (shuffle string ts g) as [st g1]. cbn [fst] in Pt.
  pose proof (shuffle_perm _ ns g1) as Pn.
  destruct (shuffle Z ns g1) as [sn g2]. cbn [fst] in Pn.
  assert (Elen : len sn = len ns).
  { unfold len. now rewrite (Permutation_length Pn). }
  assert (Hlen : 0 + numbered st <= len sn).
  { rewrite (numbered_perm st ts Pt). lia. }
  destruct (place_loop sn st 0 [] 0 (Z.le_refl 0) Hlen)
    as (board & Hrun & Hpos & Hter & Htok & Hok).
  unfold enumerate.
  match goal with
  | |- context [for_each ?l ?s ?b] =>
      replace (for_each l s b)
        with (Ok (([] ++ board : Board), 0 + numbered st))
        by (symmetry; exact Hrun)
  end.
  cbn [rbind fst app].
  exists board, g2, (skipn (Z.to_nat (numbered st)) sn).
  split; [reflexivity |].
  cbn [Z.to_nat skipn] in Htok.
  split; [rewrite Htok, firstn_skipn; exact Pn |].
  split.
  { rewrite Htok. unfold len. rewrite length_firstn.
    pose proof (numbered_nonneg st). unfold len in Hlen.
    rewrite (numbered_perm st ts Pt) in *. lia. }
  split.
  { rewrite Hpos. fold (enumerate st). rewrite enumerate_positions.
    now rewrite (Permutation_length Pt). }
  split; [now rewrite Hter | assumption].
Qed.

(** X4: with both pools set, the sampler raises [IndexError] exactly when
    the number pool is shorter than the count of tiles other than Desert,
    and [generate_board] then raises it for every [max_attempts]; with
    numbers to spare it deals a board on which as many numbers as there are
    such tiles lie, the rest of the pool staying unused. *)
Theorem sampler_needs_enough_numbers
  (self : Generator) (ts : list string) (ns : list Z)
  (max_attempts : Z) (g : G) :
  terrains self = Some ts -> numbers self = Some ns ->
  (len ns < numbered ts ->
     generate_candidate_board shuffle self g = Raise IndexError
     /\ generate_board shuffle self max_attempts g = Raise IndexError)
  /\ (numbered ts <= len ns ->
        exists board g' rest,
          generate_candidate_board shuffle self g = Ok (board, g')
          /\ Permutation (tokens_on board ++ rest) ns
          /\ len (tokens_on board) = numbered ts
          /\ map position board = map Z.of_nat (seq 0 (List.length ts))
          /\ Permutation (map terrain board) ts
          /\ Forall tile_ok board).
Proof.
  intros Ht Hn. split.
  - intros Hshort. split; [now apply (sample_short self ts ns) |].
    unfold generate_board.
    destruct (Z.to_nat max_attempts) as [| n]; simpl;
      now rewrite (sample_short self ts ns _ Ht Hn Hshort).
  - now apply sample_surplus.
Qed.

End SamplerFacts.

Lemma sampler_needs_enough_numbers_witness :
  (forall A (l : list A) g, Permutation (fst (replay A l g)) l)
  /\ terrains (mkGenerator "custom" (Some ["Gold"; "Desert"; "Gold"])
                           (Some [5]))
     = Some ["Gold"; "Desert"; "Gold"]
  /\ numbers (mkGenerator "custom" (Some ["Gold"; "Desert"; "Gold"])
                          (Some [5]))
     = Some [5]
  /\ len [5] < numbered ["Gold"; "Desert"; "Gold"]
  /\ generate_candidate_board replay
       (mkGenerator "custom" (Some ["Gold"; "Desert"; "Gold"]) (Some [5])) []
     = Raise IndexError
  /\ generate_board replay
       (mkGenerator "custom" (Some ["Gold"; "Desert"; "Gold"]) (Some [5]))
       1000 []
     = Raise IndexError.
Proof.
  assert (Hshort : len [5] < numbered ["Gold"; "Desert"; "Gold"])
    by (vm_compute; reflexivity).
  exact (conj replay_perm
           (conj eq_refl
              (conj eq_refl
                 (conj Hshort
                    (proj1 (sampler_needs_enough_numbers
                              (list (list nat)) replay replay_perm
                              (mkGenerator "custom"
                                 (Some ["Gold"; "Desert"; "Gold"]) (Some [5]))
                              ["Gold"; "Desert"; "Gold"] [5] 1000 []
                              eq_refl eq_refl)
                           Hshort))))).
Defined.

(** ** Pip adjacency counts every pair twice *)

Lemma neighbors_facts_bool :
  forallb (fun p =>
             negb (mem p (neighbors p))
             && Nat.eqb (List.length (nodup Z.eq_dec (neighbors p)))
                        (List.length (neighbors p)))
          (map Z.of_nat (seq 0 19)) = true.
Proof. vm_compute. reflexivity. Qed.

Lemma neighbors_irreflexive p : ~ In p (neighbors p).
Proof.
  intros H. pose proof (neighbors_range p p H) as [Hr _].
  pose proof neighbors_facts_bool as F. rewrite forallb_forall in F.
  specialize (F p (position_cases p Hr)).
  apply andb_true_iff in F. destruct F as [F _].
  apply negb_true_iff, mem_false in F. contradiction.
Qed.

Lemma nodup_same_length {A} (dec : forall x y : A, {x = y} + {x <> y}) l :
  List.length (nodup dec l) = List.length l -> NoDup l.
Proof.
  induction l as [| x l IH]; intros H; [constructor |].
  simpl in H. destruct (in_dec dec x l) as [Hin | Hnot].
  - assert (Hle : (List.length (nodup dec l) <= List.length l)%nat).
    { apply NoDup_incl_length; [apply NoDup_nodup |].
      intros y Hy. now apply nodup_In in Hy. }
    lia.
  - simpl in H. constructor; [assumption |]. apply IH. lia.
Qed.

Lemma neighbors_nodup p : NoDup (neighbors p).
Proof.
  destruct (Z_le_dec 0 p) as [H0 | H0];
    [destruct (Z_le_dec p 18) as [H1 | H1] |];
    try (rewrite neighbors_outside by lia; constructor).
  pose proof neighbors_facts_bool as F. rewrite forallb_forall in F.
  specialize (F p (position_cases p (conj H0 H1))).
  apply andb_true_iff in F. destruct F as [_ F].
  apply Nat.eqb_eq in F. exact (nodup_same_length Z.eq_dec _ F).
Qed.

Lemma neighbors_symmetric p q : In q (neighbors p) -> In p (neighbors q).
Proof.
  intros H. pose proof (neighbors_range p q H) as [Hq Hp].
  pose proof neighbors_symmetric_bool as S. rewrite forallb_forall in S.
  specialize (S p (position_cases p Hp)). rewrite forallb_forall in S.
  specialize (S q (position_cases q Hq)). apply eqb_prop in S.
  apply mem_In. rewrite <- S. now apply mem_In.
Qed.

Lemma in_positions board p :
  In p (positions board) <-> exists h, hex_at board p = Some h.
Proof.
  unfold positions, hex_at. rewrite in_map_iff. split.
  - intros (i & <- & Hi). apply in_seq in Hi.
    destruct (Z.ltb_spec (Z.of_nat i) 0); [lia |]. rewrite Nat2Z.id.
    destruct (nth_error board i) as [h |] eqn:E; [now exists h |].
    apply nth_error_None in E. lia.
  - intros (h & H). destruct (Z.ltb_spec p 0); [discriminate |].
    exists (Z.to_nat p). split; [lia |]. apply in_seq.
    assert (Hn : nth_error board (Z.to_nat p) <> None) by congruence.
    apply nth_error_Some in Hn. lia.
Qed.

Lemma in_adjacent_pairs board p q :
  In (p, q) (adjacent_pairs board) <->
  In p (positions board) /\ In q (positions board) /\ In q (neighbors p).
Proof.
  unfold adjacent_pairs. rewrite in_flat_map. split.
  - intros (p' & Hp' & Hin). apply in_map_iff in Hin.
    destruct Hin as (q' & E & Hq'). inversion E; subst p' q'.
    unfold neighbors_on in Hq'. apply filter_In in Hq'.
    destruct Hq' as [Hn Hx]. repeat split; try assumption.
    apply in_positions. destruct (hex_at board q) as [h |];
      [now exists h | discriminate].
  - intros (Hp & Hq & Hn). exists p. split; [assumption |].
    apply in_map. unfold neighbors_on. apply filter_In. split; [assumption |].
    apply in_positions in Hq. destruct Hq as (h & ->). reflexivity.
Qed.

Lemma positions_nodup board : NoDup (positions board).
Proof.
  unfold positions. apply Finite.Injective_map_NoDup; [| apply seq_NoDup].
  intros i j H. lia.
Qed.

Lemma adjacent_pairs_nodup board : NoDup (adjacent_pairs board).
Proof.
  unfold adjacent_pairs.
  pose proof (positions_nodup board) as Hnd.
  induction (positions board) as [| p ps IH]; simpl; [constructor |].
  inversion Hnd as [| ? ? Hnotin Hnd']; subst.
  apply NoDup_app; [| now apply IH |].
  - apply Finite.Injective_map_NoDup; [intros x y E; now inversion E |].
    unfold neighbors_on. apply NoDup_filter, neighbors_nodup.
  - intros [a b] Ha Hb. apply in_map_iff in Ha.
    destruct Ha as (q & E & _). inversion E; subst a b.
    apply in_flat_map in Hb. destruct Hb as (p' & Hp' & Hin).
    apply in_map_iff in Hin. destruct Hin as (q' & E' & _).
    inversion E'; subst. contradiction.
Qed.

Lemma len_filter_split {A} (f g : A -> bool) l :
  len (filter f l)
  = len (filter (fun x => g x && f x) l)
    + len (filter (fun x => negb (g x) && f x) l).
Proof.
  induction l as [| x l IH]; [reflexivity |].
  cbn [filter]. destruct (f x), (g x); cbn [andb negb];
    rewrite ?len_cons; lia.
Qed.

(** The high-pip pairs [(p, q)] with [p < q] and those with [q < p] mirror
    each other. *)
Lemma high_pip_pairs_mirror board :
  Permutation
    (map (fun pq : Z * Z => (snd pq, fst pq)) (high_pip_edges board))
    (filter (fun '(p, q) =>
               negb (p <? q)
               && ((4 <=? pip_at board p) && (4 <=? pip_at board q)))
            (adjacent_pairs board)).
Proof.
  apply NoDup_Permutation.
  - apply Finite.Injective_map_NoDup.
    + intros [a b] [c d] E. simpl in E. now inversion E.
    + apply NoDup_filter, adjacent_pairs_nodup.
  - apply NoDup_filter, adjacent_pairs_nodup.
  - intros [a b]. rewrite in_map_iff, filter_In. split.
    + intros ([p q] & E & Hin). simpl in E. inversion E; subst a b.
      unfold high_pip_edges in Hin. apply filter_In in Hin.
      destruct Hin as [Hin Hc]. apply in_adjacent_pairs in Hin.
      destruct Hin as (Hp & Hq & Hn).
      apply andb_true_iff in Hc. destruct Hc as [Hlt Hc].
      apply andb_true_iff in Hc. destruct Hc as [Hp4 Hq4].
      split.
      * apply in_adjacent_pairs. repeat split; try assumption.
        now apply neighbors_symmetric.
      * apply Z.ltb_lt in Hlt. rewrite Hp4, Hq4.
        destruct (Z.ltb_spec q p); [lia | reflexivity].
    + intros [Hin Hc]. apply in_adjacent_pairs in Hin.
      destruct Hin as (Ha & Hb & Hn).
      apply andb_true_iff in Hc. destruct Hc as [Hge Hc].
      apply andb_true_iff in Hc. destruct Hc as [Ha4 Hb4].
      exists (b, a). split; [reflexivity |].
      unfold high_pip_edges. apply filter_In. split.
      * apply in_adjacent_pairs. repeat split; try assumption.
        now apply neighbors_symmetric.
      * rewrite Ha4, Hb4. apply negb_true_iff, Z.ltb_ge in Hge.
        assert (a <> b).
        { intros ->. exact (neighbors_irreflexive b Hn). }
        destruct (Z.ltb_spec b a); [reflexivity | lia].
Qed.

Lemma high_pip_pairs_twice board :
  len (filter (fun '(p, q) => (4 <=? pip_at board p) && (4 <=? pip_at board q))
              (adjacent_pairs board))
  = 2 * len (high_pip_edges board).
Proof.
  rewrite (len_filter_split _ (fun '(p, q) => p <? q)).
  assert (E1 : filter (fun x : Z * Z =>
                         (let '(p, q) := x in p <? q)
                         && (let '(p, q) := x in
                             (4 <=? pip_at board p) && (4 <=? pip_at board q)))
                      (adjacent_pairs board)
               = high_pip_edges board).
  { unfold high_pip_edges. apply filter_ext. now intros [p q]. }
  assert (E2 : filter (fun x : Z * Z =>
                         negb (let '(p, q) := x in p <? q)
                         && (let '(p, q) := x in
                             (4 <=? pip_at board p) && (4 <=? pip_at board q)))
                      (adjacent_pairs board)
               = filter (fun '(p, q) =>
                           negb (p <? q)
                           && ((4 <=? pip_at board p)
                               && (4 <=? pip_at board q)))
                        (adjacent_pairs board)).
  { apply filter_ext. now intros [p q]. }
  rewrite E1, E2. unfold len.
  rewrite <- (Permutation_length (high_pip_pairs_mirror board)).
  rewrite length_map. lia.
Qed.

(** X5: [_score_pip_adjacency] returns a whole number: the count of
    adjacent pairs of hexes with pip weight at least 4 at both ends, each
    pair taken once (the smaller position first); the loop meets every such
    pair twice, as the comment in the source says. *)
Theorem score_pip_adjacency_counts_pairs_once (board : Board) :
  score_pip_adjacency board = Ok (IZR (len (high_pip_edges board)))
  /\ len (filter (fun '(p, q) =>
                    (4 <=? pip_at board p) && (4 <=? pip_at board q))
                 (adjacent_pairs board))
     = 2 * len (high_pip_edges board).
Proof.
  split; [| apply high_pip_pairs_twice].
  rewrite score_pip_adjacency_ok. unfold pipAdjacencyPenalty.
  rewrite high_pip_pairs_twice, mult_IZR. f_equal. field.
Qed.

(** ** The warnings of [display_statistics] *)

Lemma fold_collect {A B} (P : A -> bool) (g : A -> B) l :
  forall acc,
    fold_left (fun acc x => if P x then acc ++ [g x] else acc) l acc
    = acc ++ map g (filter P l).
Proof.
  induction l as [| x l IH]; intros acc; simpl.
  - now rewrite app_nil_r.
  - rewrite IH. destruct (P x); simpl; [| reflexivity].
    now rewrite <- app_assoc.
Qed.

Lemma fold_flat {A B} (F : A -> list B) l :
  forall acc, fold_left (fun acc x => acc ++ F x) l acc = acc ++ flat_map F l.
Proof.
  induction l as [| x l IH]; intros acc; simpl.
  - now rewrite app_nil_r.
  - rewrite IH. now rewrite app_assoc.
Qed.

Lemma violations_loop (board : Board) pos :
  forall violations,
    for_each (neighbors pos) violations (fun violations adj_pos =>
      if adj_pos <? len board then
        let* adj := getitem board adj_pos in
        Ok (if number_is_high (number adj)
            then violations ++ [(pos, adj_pos)] else violations)
      else Ok violations)
    = Ok (violations
          ++ map (pair pos) (filter (high_number_at board) (neighbors pos))).
Proof.
  intros violations.
  rewrite (for_each_ok
             (fun acc q =>
                if high_number_at board q then acc ++ [pair pos q] else acc)).
  - now rewrite fold_collect.
  - intros acc q Hq. apply neighbors_range in Hq.
    pose proof (getitem_guarded board q (proj1 (proj1 Hq))) as Hg.
    unfold high_number_at.
    destruct (q <? len board).
    + destruct Hg as [h [-> ->]]. reflexivity.
    + now rewrite Hg.
Qed.

Lemma filter_flat_map {A B} (f : B -> bool) (F : A -> list B) l :
  filter f (flat_map F l) = flat_map (fun x => filter f (F x)) l.
Proof.
  induction l as [| x l IH]; simpl; [reflexivity |].
  now rewrite filter_app, IH.
Qed.

Lemma flat_map_fst_enumerate {B} (F : Z -> list B) (board : Board) :
  flat_map (fun ph : Z * Hex => F (fst ph)) (enumerate board)
  = flat_map F (positions board).
Proof.
  rewrite <- enumerate_fst. rewrite !flat_map_concat_map, map_map.
  reflexivity.
Qed.

(** The list [violations] is the adjacent pairs of the board, in order,
    with a 6 or an 8 at both indices. *)
Lemma statistics_violations_ok (board : Board) :
  statistics_violations board
  = Ok (filter (fun '(p, q) =>
                  high_number_at board p && high_number_at board q)
               (adjacent_pairs board)).
Proof.
  unfold statistics_violations.
  set (F := fun p : Z =>
              if high_number_at board p
              then map (pair p) (filter (high_number_at board) (neighbors p))
              else []).
  rewrite (for_each_ok (fun acc ph => acc ++ F (fst ph))).
  - rewrite fold_flat. cbn [app]. f_equal.
    rewrite (flat_map_fst_enumerate F). unfold adjacent_pairs.
    rewrite filter_flat_map. apply flat_map_ext. intros p. unfold F.
    rewrite filter_map_pair. unfold neighbors_on. rewrite filter_filter.
    destruct (high_number_at board p); cbn [andb].
    + f_equal. apply filter_ext. intros q. unfold high_number_at.
      destruct (hex_at board q); reflexivity.
    + rewrite filter_none; [reflexivity |].
      intros q _. now destruct (hex_at board q).
  - intros acc [p h] Hin. cbn [fst]. unfold F, high_number_at.
    rewrite (enumerate_hex_at board p h Hin).
    destruct (number_is_high (number h)).
    + apply violations_loop.
    + now rewrite app_nil_r.
Qed.

Lemma indexed_nth board i h :
  indexed board -> nth_error board i = Some h -> position h = Z.of_nat i.
Proof.
  unfold indexed, positions. intros Hidx Hn.
  pose proof (map_nth_error position _ _ Hn) as Hm. rewrite Hidx in Hm.
  assert (Hi : (i < List.length board)%nat)
    by (apply nth_error_Some; congruence).
  assert (Hs : nth_error (seq 0 (List.length board)) i = Some i).
  { rewrite (nth_error_nth' _ 0%nat) by (rewrite length_seq; lia).
    now rewrite seq_nth by lia. }
  rewrite (map_nth_error Z.of_nat _ _ Hs) in Hm. now inversion Hm.
Qed.

(** On an indexed board the hex of position [p] is the hex of index [p]. *)
Lemma indexed_hex_at board p h :
  indexed board ->
  (In h board /\ position h = p) <-> hex_at board p = Some h.
Proof.
  intros Hidx. unfold hex_at. split.
  - intros [Hin <-]. apply In_nth_error in Hin. destruct Hin as (i & Hi).
    rewrite (indexed_nth board i h Hidx Hi).
    destruct (Z.ltb_spec (Z.of_nat i) 0); [lia |]. now rewrite Nat2Z.id.
  - destruct (Z.ltb_spec p 0); [discriminate |]. intros Hn.
    split; [now apply nth_error_In in Hn |].
    rewrite (indexed_nth board _ h Hidx Hn). lia.
Qed.

Lemma indexed_high_at board p :
  indexed board -> high_at board p <-> high_number_at board p = true.
Proof.
  intros Hidx. unfold high_at, high_number_at. split.
  - intros (h & Hin & Hp & Hn).
    rewrite (proj1 (indexed_hex_at board p h Hidx) (conj Hin Hp)).
    now apply number_is_high_iff.
  - destruct (hex_at board p) as [h |] eqn:E; [| discriminate].
    intros Hn. apply (indexed_hex_at board p h Hidx) in E.
    exists h. destruct E. repeat split; try assumption.
    now apply number_is_high_iff.
Qed.

(** A dealt board is indexed. *)
Lemma well_dealt_indexed ts ns board : well_dealt ts ns board -> indexed board.
Proof.
  intros (Hpos & Hter & _). unfold indexed, positions. rewrite Hpos.
  apply Permutation_length in Hter. rewrite length_map in Hter.
  now rewrite Hter.
Qed.

Lemma desert_on_edge_check board :
  desert_on_edge board = negb (check_desert_placement board).
Proof.
  unfold desert_on_edge, desert_positions, check_desert_placement.
  induction board as [| h board IH]; [reflexivity |].
  cbn [filter forallb].
  destruct (terrain h =? Desert)%string; cbn [map existsb andb negb].
  - rewrite IH. now destruct (mem (position h) edge_positions).
  - exact IH.
Qed.

(** The two warnings against the two checks. *)
Lemma statistics_checks (board : Board) :
  indexed board ->
  (exists violations,
      statistics_violations board = Ok violations
      /\ (violations = [] <-> check_adjacent_high_numbers board = true))
  /\ desert_on_edge board = negb (check_desert_placement board).
Proof.
  intros Hidx. split; [| apply desert_on_edge_check].
  eexists. split; [apply statistics_violations_ok |].
  rewrite adjacent_high_check. split.
  - intros Hnil p q Hp Hq Hhq.
    apply (indexed_high_at board p Hidx) in Hp.
    apply (indexed_high_at board q Hidx) in Hhq.
    assert (Hin : In (p, q)
                     (filter (fun '(p, q) =>
                                high_number_at board p
                                && high_number_at board q)
                             (adjacent_pairs board))).
    { apply filter_In. split; [| now rewrite Hp, Hhq].
      apply in_adjacent_pairs. unfold high_number_at in Hp, Hhq.
      repeat split; try assumption; apply in_positions.
      - destruct (hex_at board p) as [h |]; [now exists h | discriminate].
      - destruct (hex_at board q) as [h |]; [now exists h | discriminate]. }
    rewrite Hnil in Hin. contradiction.
  - intros Hchk. apply filter_none. intros [p q] Hin.
    apply in_adjacent_pairs in Hin. destruct Hin as (_ & _ & Hn).
    destruct (high_number_at board p) eqn:Hp; [| reflexivity].
    destruct (high_number_at board q) eqn:Hq; [| reflexivity].
    exfalso. apply (Hchk p q); try assumption;
      now apply (indexed_high_at board _ Hidx).
Qed.

(** X6: on every board [display_statistics] builds its list of violations
    without an exception, and on a board whose hexes sit at their own
    index (every sampled board does) the list is empty, so that the line
    "No adjacent 6s or 8s" is printed, exactly when
    [_check_adjacent_high_numbers] passes; on every board it reports the
    Desert on the edge exactly when [_check_desert_placement] fails. *)
Theorem statistics_agree_with_checks (board : Board) :
  (exists violations,
      statistics_violations board = Ok violations
      /\ (indexed board ->
          (violations = [] <-> check_adjacent_high_numbers board = true)))
  /\ desert_on_edge board = negb (check_desert_placement board).
Proof.
  split; [| apply desert_on_edge_check].
  eexists. split; [apply statistics_violations_ok |].
  intros Hidx.
  destruct (statistics_checks board Hidx) as [(vs & Hvs & Hiff) _].
  rewrite statistics_violations_ok in Hvs. inversion Hvs as [E].
  rewrite E. exact Hiff.
Qed.

Lemma statistics_agree_with_checks_witness :
  indexed example_board
  /\ (exists violations,
         statistics_violations example_board = Ok violations
         /\ (violations = []
             <-> check_adjacent_high_numbers example_board = true))
  /\ desert_on_edge example_board
     = negb (check_desert_placement example_board).
Proof.
  assert (Hidx : indexed example_board) by reflexivity.
  destruct (statistics_agree_with_checks example_board)
    as [(vs & Hvs & Hiff) Hedge].
  exact (conj Hidx
           (conj (ex_intro _ vs (conj Hvs (Hiff Hidx))) Hedge)).
Defined.

(** ** The rows of the two displays *)

Lemma slice_app {A} (l : list A) a b c :
  (a <= b)%nat -> (b <= c)%nat -> slice l a b ++ slice l b c = slice l a c.
Proof.
  intros Hab Hbc. unfold slice.
  assert (E : firstn c l = firstn b l ++ skipn b (firstn c l)).
  { rewrite <- (firstn_skipn b (firstn c l)) at 1.
    rewrite firstn_firstn. now replace (Nat.min b c) with b by lia. }
  rewrite E at 2. rewrite skipn_app.
  destruct (Nat.le_gt_cases a (List.length (firstn b l))) as [Hle | Hgt].
  - replace (a - List.length (firstn b l))%nat with 0%nat by lia.
    reflexivity.
  - rewrite length_firstn in Hgt.
    assert (Hshort : (List.length l < b)%nat) by lia.
    rewrite (skipn_all2 (firstn c l)) by (rewrite length_firstn; lia).
    now rewrite skipn_nil.
Qed.

Lemma slice_length {A} (l : list A) a b :
  (b <= List.length l)%nat -> List.length (slice l a b) = (b - a)%nat.
Proof.
  intros H. unfold slice. rewrite length_skipn, length_firstn. lia.
Qed.

(** X7: the rows that [display_board_visual] and [display_board] print are
    the same five slices; laid end to end they are the first 19 hexes of
    the board, so that a hex of index 19 or more (the 30-hex board has
    eleven) is in no row; a board of at least 19 hexes gives rows of 3, 4,
    5, 4 and 3 hexes. [display_board] goes on to call
    [display_statistics], whose list of 6s and 8s is taken from the whole
    board: it is the 6s and 8s of the rows followed by those of the hexes
    of index 19 or more, which are printed there though no row shows
    them. *)
Theorem display_rows_are_first_19 (board : Board) :
  map fst (visual_rows board) = display_rows board
  /\ concat (display_rows board) = firstn 19 board
  /\ ((19 <= List.length board)%nat ->
      map (@List.length Hex) (display_rows board) = [3; 4; 5; 4; 3]%nat)
  /\ statistics_high_numbers board
     = statistics_high_numbers (concat (display_rows board))
       ++ statistics_high_numbers (skipn 19 board).
Proof.
  assert (Hcat : concat (display_rows board) = firstn 19 board).
  { unfold display_rows. cbn [concat]. rewrite app_nil_r.
    rewrite (slice_app board 12 16 19) by lia.
    rewrite (slice_app board 7 12 19) by lia.
    rewrite (slice_app board 3 7 19) by lia.
    rewrite (slice_app board 0 3 19) by lia.
    reflexivity. }
  split; [reflexivity |]. split; [exact Hcat |]. split.
  - intros H. unfold display_rows. cbn [map].
    rewrite !slice_length by lia. reflexivity.
  - rewrite Hcat. unfold statistics_high_numbers.
    rewrite <- filter_app. now rewrite firstn_skipn.
Qed.

Lemma display_rows_are_first_19_witness :
  (19 <= List.length example_board)%nat
  /\ map (@List.length Hex) (display_rows example_board) = [3; 4; 5; 4; 3]%nat
  /\ concat (display_rows example_board) = firstn 19 example_board.
Proof.
  assert (H : (19 <= List.length example_board)%nat) by (simpl; lia).
  destruct (display_rows_are_first_19 example_board) as (_ & Hc & Hl & _).
  exact (conj H (conj (Hl H) Hc)).
Defined.

(** On [fifty_board], of 30 hexes, the statistics list three 6s and 8s
    that no row shows. *)
Example fifty_board_hidden_high_numbers :
  List.length (statistics_high_numbers fifty_board) = 6%nat
  /\ List.length (statistics_high_numbers (concat (display_rows fifty_board)))
     = 3%nat
  /\ List.length (statistics_high_numbers (skipn 19 fifty_board)) = 3%nat.
Proof. vm_compute. repeat split. Qed.

(** ** The text of [display_board_visual] *)









Lemma length_str_pos n : (1 <= String.length (str n))%nat.
Proof.
  unfold str. destruct (Z.to_int n) as [d | d]; simpl.
  - destruct d; simpl; lia.
  - destruct d; simpl; lia.
Qed.











(** ** The generator that [main] builds *)

Lemma choose_expansion_cases choice :
  (choice = "2" /\ choose_expansion choice = "5-6player")
  \/ (choice = "3" /\ choose_expansion choice = "custom")
  \/ (choice <> "2" /\ choice <> "3" /\ choose_expansion choice = "base").
Proof.
  unfold choose_expansion, expansion_map, dict_get.
  destruct (String.eqb_spec choice "1") as [-> | H1].
  { right. right. repeat split; discriminate. }
  destruct (String.eqb_spec choice "2") as [-> | H2]; [now left |].
  destruct (String.eqb_spec choice "3") as [-> | H3]; [right; now left |].
  right. right. repeat split; try assumption.
  now destruct (String.eqb_spec choice "").
Qed.

Lemma choose_expansion_profile choice :
  In (choose_expansion choice) profile_names.
Proof.
  destruct (choose_expansion_cases choice)
    as [[_ ->] | [[_ ->] | (_ & _ & ->)]]; in_names.
Qed.

(** X9: whatever is typed at the first prompt of [main], the expansion
    looked up is one of the three profiles ("base" for everything but "2"
    and "3"), so the generator has its pools and [generate_board()] raises
    nothing and returns a board dealt from them. *)
Theorem main_builds_a_profile_board
  (P : Platform)
  (G : Type) (shuffle : forall A : Type, list A -> G -> list A * G)
  (choice : string) (g : G) :
  (forall A (l : list A) g, Permutation (fst (shuffle A l g)) l) ->
  In (choose_expansion choice) profile_names
  /\ (choice <> "2" -> choice <> "3" -> choose_expansion choice = "base")
  /\ exists ts ns b g',
       terrains (CatanBoardGenerator (choose_expansion choice)) = Some ts
       /\ numbers (CatanBoardGenerator (choose_expansion choice)) = Some ns
       /\ main_board shuffle choice g = Ok (b, g')
       /\ well_dealt ts ns b.
Proof.
  intros Hperm.
  pose proof (choose_expansion_profile choice) as Hname.
  split; [assumption |]. split.
  - intros H2 H3.
    destruct (choose_expansion_cases choice)
      as [[E _] | [[E _] | (_ & _ & E)]]; [contradiction | contradiction |].
    exact E.
  - exact (generate_dealt G shuffle Hperm (choose_expansion choice) 1000 g
             Hname).
Qed.

Lemma main_builds_a_profile_board_witness :
  (forall A (l : list A) g, Permutation (fst (replay A l g)) l)
  /\ choose_expansion "seven" = "base"
  /\ exists ts ns b g',
       terrains (CatanBoardGenerator (choose_expansion "seven")) = Some ts
       /\ numbers (CatanBoardGenerator (choose_expansion "seven")) = Some ns
       /\ main_board replay "seven" example_rng = Ok (b, g')
       /\ well_dealt ts ns b.
Proof.
  destruct (main_builds_a_profile_board left_to_right
              (list (list nat)) replay
              "seven" example_rng replay_perm) as (_ & _ & H).
  exact (conj replay_perm (conj eq_refl H)).
Defined.

(** ** Boards of score 0 *)


Lemma pipAdjacencyPenalty_edges board :
  pipAdjacencyPenalty board = IZR (len (high_pip_edges board)).
Proof.
  unfold pipAdjacencyPenalty. rewrite high_pip_pairs_twice, mult_IZR. field.
Qed.








(** ** No board of a profile scores 0 *)


Lemma dict_add_len (d : list (string * Z)) k v :
  existsb (String.eqb k) (map fst d) = true ->
  List.length (dict_set String.eqb d k v) = List.length d.
Proof.
  induction d as [| [k' v'] d IH]; simpl; [discriminate |].
  destruct (String.eqb_spec k k') as [-> | Hne]; simpl; [reflexivity |].
  intros H. now rewrite IH.
Qed.















(** ** The 6/8 rule and the pip-adjacency penalty *)

Lemma forallb_false {A} (f : A -> bool) l :
  forallb f l = false -> exists x, In x l /\ f x = false.
Proof.
  induction l as [| x l IH]; simpl; [discriminate |].
  destruct (f x) eqn:E; simpl.
  - intros H. destruct (IH H) as (y & Hy & Hf). exists y. auto.
  - intros _. exists x. auto.
Qed.

Lemma high_number_pip board p :
  high_number_at board p = true ->
  In p (positions board) /\ pip_at board p = 5.
Proof.
  unfold high_number_at, pip_at. intros H. split.
  - apply in_positions. destruct (hex_at board p) as [h |];
      [now exists h | discriminate].
  - destruct (hex_at board p) as [h |]; [| discriminate].
    apply number_is_high_iff in H. destruct H as [-> | ->]; reflexivity.
Qed.

(** X12: on a board whose hexes sit at their own index, a failure of
    [_check_adjacent_high_numbers] is also penalised by
    [_score_pip_adjacency]: two adjacent hexes with a 6 or an 8 are an
    adjacent pair of pip weight 5, and the penalty is at least 1. *)
Theorem adjacent_high_numbers_are_penalised (board : Board) :
  indexed board ->
  check_adjacent_high_numbers board = false ->
  exists a, score_pip_adjacency board = Ok a /\ (1 <= a)%R.
Proof.
  intros Hidx Hchk. unfold check_adjacent_high_numbers in Hchk.
  apply forallb_false in Hchk. destruct Hchk as (p & Hp & Hex).
  apply negb_false_iff, existsb_exists in Hex.
  destruct Hex as (q & Hq & Hm). apply mem_In in Hm.
  apply high_value_positions_iff, (indexed_high_at board p Hidx) in Hp.
  apply high_value_positions_iff, (indexed_high_at board q Hidx) in Hm.
  destruct (high_number_pip board p Hp) as [Pp Ep].
  destruct (high_number_pip board q Hm) as [Pq Eq].
  assert (Hne : p <> q).
  { intros ->. exact (neighbors_irreflexive q Hq). }
  assert (Hedge : exists e, In e (high_pip_edges board)).
  { destruct (Z.lt_ge_cases p q) as [Hlt | Hge].
    - exists (p, q). unfold high_pip_edges. apply filter_In. split.
      + apply in_adjacent_pairs. auto.
      + rewrite Ep, Eq. apply Z.ltb_lt in Hlt. now rewrite Hlt.
    - exists (q, p). unfold high_pip_edges. apply filter_In. split.
      + apply in_adjacent_pairs. repeat split; try assumption.
        now apply neighbors_symmetric.
      + rewrite Ep, Eq. assert (Hlt : q < p) by lia.
        apply Z.ltb_lt in Hlt. now rewrite Hlt. }
  exists (IZR (len (high_pip_edges board))). split.
  - rewrite score_pip_adjacency_ok. f_equal. apply pipAdjacencyPenalty_edges.
  - apply IZR_le. destruct Hedge as (e & He).
    destruct (high_pip_edges board) as [| e' l]; [contradiction |].
    rewrite len_cons. pose proof (len_nonneg l). lia.
Qed.

Lemma adjacent_high_numbers_are_penalised_witness :
  indexed pool_order_board
  /\ check_adjacent_high_numbers pool_order_board = false
  /\ exists a, score_pip_adjacency pool_order_board = Ok a /\ (1 <= a)%R.
Proof.
  assert (Hidx : indexed pool_order_board) by reflexivity.
  assert (Hchk : check_adjacent_high_numbers pool_order_board = false)
    by (vm_compute; reflexivity).
  exact (conj Hidx
           (conj Hchk
              (adjacent_high_numbers_are_penalised pool_order_board
                 Hidx Hchk))).
Defined.

(** ** What the loop returns, read off the samples *)

Section SelectionFacts.

Context {P : Platform}.
Variable G : Type.
Variable shuffle : forall A : Type, list A -> G -> list A * G.
Hypothesis shuffle_perm :
  forall A (l : list A) g, Permutation (fst (shuffle A l g)) l.

(** The run of the loop against the [n] samples it could draw. *)
Lemma loop_against_samples name n g cs g1 :
  In name profile_names ->
  samples shuffle (CatanBoardGenerator name) n g = Ok (cs, g1) ->
  exists bb bs g' k,
    attempts shuffle (CatanBoardGenerator name) n None infinity g
    = Ok (bb, bs, g')
    /\ (k <= n)%nat
    /\ samples shuffle (CatanBoardGenerator name) k g = Ok (firstn k cs, g')
    /\ best_is (firstn k cs) bb bs
    /\ ((k = n
         /\ forall c, In c cs -> valid c = true ->
                      (double_score c <? 50)%float = false)
        \/ (exists c,
              nth_error cs (k - 1) = Some c /\ (1 <= k)%nat
              /\ valid c = true /\ (double_score c <? 50)%float = true
              /\ bb = Some c
              /\ forall j c', (j < k - 1)%nat -> nth_error cs j = Some c' ->
                              valid c' = true ->
                              (double_score c' <? 50)%float = false)).
Proof.
  intros Hname Hall.
  pose proof (profile_sampler_total G shuffle shuffle_perm name Hname)
    as Htotal.
  destruct (attempts_ok G shuffle _ Htotal n None infinity g)
    as (bb & bs & g' & Hrun).
  destruct (attempts_inv G shuffle _ Htotal n [] g None infinity bb bs g')
    as (cs' & Hsam & Hlen & Hbest & Hend); try assumption.
  { simpl. split; [reflexivity | intros c []]. }
  { intros c []. }
  simpl in Hbest, Hend.
  destruct (samples_firstn G shuffle _ _ _ _ _ _ Hall Hlen) as (g3 & Hpre).
  rewrite Hsam in Hpre. inversion Hpre as [[Hcs Hg]].
  pose proof (samples_length G shuffle _ _ _ _ _ Hall) as Hl.
  exists bb, bs, g', (List.length cs').
  rewrite <- Hcs. repeat (split; [assumption |]).
  destruct Hend as [[Hn Hge] | (cs0 & c & E & Hv & Hlt & Hbb & Hge)].
  - left. split; [assumption |].
    rewrite Hn, <- Hl, firstn_all in Hcs. rewrite <- Hcs.
    exact (proj1 (none_below_fifty cs') Hge).
  - right. exists c.
    pose proof (proj1 (none_below_fifty cs0) Hge) as Hge'.
    assert (Ek : List.length cs' = S (List.length cs0)).
    { rewrite E, length_app. simpl. lia. }
    assert (Hnth : forall j x, nth_error cs' j = Some x ->
                               nth_error cs j = Some x).
    { intros j x Hj.
      assert (j < List.length cs')%nat by (apply nth_error_Some; congruence).
      rewrite Hcs in Hj. rewrite nth_error_firstn in Hj.
      destruct (Nat.ltb_spec j (List.length cs')); [assumption | lia]. }
    split.
    { apply Hnth. rewrite Ek, E. replace (S (List.length cs0) - 1)%nat
        with (List.length cs0) by lia. apply nth_error_snoc_last. }
    split; [lia |]. repeat (split; [assumption |]).
    intros j c' Hj Hc' Hvc'. apply Hge'; [| assumption].
    rewrite Ek in Hj.
    assert (Hc'' : nth_error cs' j = Some c').
    { rewrite Hcs, nth_error_firstn.
      destruct (Nat.ltb_spec j (List.length cs')); [assumption | lia]. }
    rewrite E, nth_error_app1 in Hc'' by lia. now apply nth_error_In in Hc''.
Qed.

Lemma profile_best_returned name n g bb bs g' cs b :
  In name profile_names ->
  attempts shuffle (CatanBoardGenerator name) (Z.to_nat n) None infinity g
  = Ok (bb, bs, g') ->
  bb = Some b ->
  (exists g0 g2,
      generate_candidate_board shuffle (CatanBoardGenerator name) g0
      = Ok (b, g2)) ->
  In b cs ->
  generate shuffle name n g = Ok (b, g').
Proof.
  intros Hname Hrun -> (g0 & g2 & Hs) _.
  unfold generate, generate_board. rewrite Hrun. cbn [rbind].
  pose proof (profile_sample_nonempty G shuffle shuffle_perm
                name g0 b g2 Hname Hs) as Hne.
  destruct b; [congruence | reflexivity].
Qed.

Lemma score_board_value (c : Board) (sc : float) :
  Double.score_board c = Ok sc -> sc = double_score c.
Proof. rewrite double_score_board_ok. intros H. now inversion H. Qed.

(** X13: on a profile and on every platform, [generate] returns the first
    candidate that passes both hard constraints and whose score, as
    [_score_board] computes it, is below 50, and draws no sample after it,
    whatever the later candidates would score: the result is the first
    board that is good enough, not the best of [max_attempts]. *)
Theorem generate_stops_at_first_good_enough
  (name : string) (max_attempts : Z) (g : G)
  (cs : list Board) (g1 : G) (i : nat) (b : Board) (s : float) :
  In name profile_names ->
  samples shuffle (CatanBoardGenerator name) (Z.to_nat max_attempts) g
  = Ok (cs, g1) ->
  nth_error cs i = Some b ->
  valid b = true ->
  Double.score_board b = Ok s ->
  (s <? 50)%float = true ->
  (forall j c sc, (j < i)%nat -> nth_error cs j = Some c -> valid c = true ->
                  Double.score_board c = Ok sc ->
                  (sc <? 50)%float = false) ->
  exists g',
    generate shuffle name max_attempts g = Ok (b, g')
    /\ samples shuffle (CatanBoardGenerator name) (S i) g
       = Ok (firstn (S i) cs, g').
Proof.
  intros Hname Hall Hi Hv Hs Hlow Hbefore.
  apply score_board_value in Hs. subst s.
  destruct (loop_against_samples name _ g cs g1 Hname Hall)
    as (bb & bs & g' & k & Hrun & Hk & Hsam & Hbest & Hend).
  destruct Hend as [[_ Hge] | (c & Hc & Hk1 & Hvc & Hlt & Hbb & Hge)].
  { apply nth_error_In in Hi. rewrite (Hge b Hi Hv) in Hlow. discriminate. }
  assert (Ei : (k - 1)%nat = i).
  { destruct (Nat.lt_trichotomy (k - 1) i) as [H | [H | H]];
      [| assumption |].
    - rewrite (Hbefore _ c _ H Hc Hvc (double_score_board_ok c)) in Hlt.
      discriminate.
    - rewrite (Hge _ b H Hi Hv) in Hlow. discriminate. }
  assert (Ec : c = b) by congruence. subst c.
  exists g'. replace (S i) with k by lia. split; [| assumption].
  apply nth_error_In in Hi.
  exact (profile_best_returned name max_attempts g bb bs g' cs b
           Hname Hrun Hbb
           (samples_sampled G shuffle _ _ _ _ _ Hall b Hi) Hi).
Qed.

(** X14: on a profile and on every platform, when no valid candidate of
    the [max_attempts] samples scores below 50, the loop draws them all
    and [generate] returns the first candidate of least score among the
    valid ones whose score is a number, provided that score is below
    [float('inf')]: [b] is valid, every valid candidate whose score is not
    NaN scores at least as much, every earlier one strictly more, in
    doubles. *)
Theorem generate_returns_first_minimum
  (name : string) (max_attempts : Z) (g : G)
  (cs : list Board) (g1 : G) (i : nat) (b : Board) (s : float) :
  In name profile_names ->
  samples shuffle (CatanBoardGenerator name) (Z.to_nat max_attempts) g
  = Ok (cs, g1) ->
  (forall c sc, In c cs -> valid c = true -> Double.score_board c = Ok sc ->
                (sc <? 50)%float = false) ->
  nth_error cs i = Some b ->
  valid b = true ->
  Double.score_board b = Ok s ->
  (s <? infinity)%float = true ->
  (forall j c sc, nth_error cs j = Some c -> valid c = true ->
                  Double.score_board c = Ok sc -> is_nan sc = false ->
                  (s <=? sc)%float = true
                  /\ ((j < i)%nat -> (s <? sc)%float = true)) ->
  generate shuffle name max_attempts g = Ok (b, g1).
Proof.
  intros Hname Hall Hhigh Hi Hv Hs Hfin Hmin.
  apply score_board_value in Hs. subst s.
  assert (Hrb : ranked b = true) by (unfold ranked; now rewrite Hv, Hfin).
  destruct (loop_against_samples name _ g cs g1 Hname Hall)
    as (bb & bs & g' & k & Hrun & Hk & Hsam & Hbest & Hend).
  destruct Hend as [[Ek _] | (c & Hc & _ & Hvc & Hlt & _)].
  2:{ apply nth_error_In in Hc.
      rewrite (Hhigh c _ Hc Hvc (double_score_board_ok c)) in Hlt.
      discriminate. }
  pose proof (samples_length G shuffle _ _ _ _ _ Hall) as Hl.
  subst k. rewrite <- Hl, firstn_all in Hbest, Hsam.
  rewrite Hl, Hall in Hsam. inversion Hsam; subst g'.
  destruct bb as [b' |]; simpl in Hbest.
  - destruct Hbest as [_ (i' & Hi' & Hr' & Hmin')].
    assert (Hnan : is_nan (double_score b') = false).
    { pose proof (ranked_below_inf b' Hr') as H.
      apply float_lt_number in H. destruct H as [H _].
      unfold is_nan. rewrite FloatAxioms.eqb_spec. unfold SFeqb.
      now rewrite (SFcompare_refl _ H). }
    assert (Eb : b' = b).
    { destruct (Hmin i' b' _ Hi' (ranked_valid b' Hr')
                  (double_score_board_ok b') Hnan) as [Hle Hlt].
      destruct (Hmin' i b Hi Hrb) as [Hle' Hlt'].
      destruct (Nat.lt_trichotomy i' i) as [H | [H | H]].
      - specialize (Hlt H).
        rewrite (float_le_not_lt _ _ Hle') in Hlt. discriminate.
      - subst i'. congruence.
      - specialize (Hlt' H).
        rewrite (float_le_not_lt _ _ Hle) in Hlt'. discriminate. }
    subst b'. apply nth_error_In in Hi.
    exact (profile_best_returned name max_attempts g (Some b) bs g1 cs b
             Hname Hrun eq_refl
             (samples_sampled G shuffle _ _ _ _ _ Hall b Hi) Hi).
  - destruct Hbest as [_ Hnone]. apply nth_error_In in Hi.
    rewrite (Hnone b Hi) in Hrb. discriminate.
Qed.

End SelectionFacts.

(** *** Runs in which rounding decides

    On the platform [left_to_right]. *)

Lemma fifty_samples :
  samples replay (CatanBoardGenerator "5-6player") (Z.to_nat 2) fifty_rng
  = Ok ([fifty_board; low_board], []).
Proof. vm_compute. reflexivity. Qed.

Lemma fifty_board_valid : valid fifty_board = true.
Proof. vm_compute. reflexivity. Qed.

(** The score of [fifty_board] is the double just below 50,
    49.999999999999993, and that of [low_board] is 7. *)
Lemma fifty_board_score :
  Double.score_board fifty_board = Ok (double_score fifty_board)
  /\ (double_score fifty_board <? 50)%float = true
  /\ next_up (double_score fifty_board) = 50%float
  /\ Double.score_board low_board = Ok 7%float.
Proof. vm_compute. repeat split. Qed.

Lemma fifty_before :
  forall j c sc, (j < 0)%nat ->
    nth_error [fifty_board; low_board] j = Some c ->
    valid c = true -> Double.score_board c = Ok sc ->
    (sc <? 50)%float = false.
Proof. intros j c sc Hj. lia. Qed.

Lemma generate_stops_at_first_good_enough_witness :
  (forall A (l : list A) g, Permutation (fst (replay A l g)) l)
  /\ In "5-6player" profile_names
  /\ samples replay (CatanBoardGenerator "5-6player") (Z.to_nat 2) fifty_rng
     = Ok ([fifty_board; low_board], [])
  /\ nth_error [fifty_board; low_board] 0 = Some fifty_board
  /\ valid fifty_board = true
  /\ Double.score_board fifty_board = Ok (double_score fifty_board)
  /\ (double_score fifty_board <? 50)%float = true
  /\ exists g',
       generate replay "5-6player" 2 fifty_rng = Ok (fifty_board, g')
       /\ samples replay (CatanBoardGenerator "5-6player") 1 fifty_rng
          = Ok (firstn 1 [fifty_board; low_board], g').
Proof.
  assert (Hname : In "5-6player" profile_names) by in_names.
  destruct fifty_board_score as (Hs & Hlow & _).
  exact (conj replay_perm
           (conj Hname
              (conj fifty_samples
                 (conj eq_refl
                    (conj fifty_board_valid
                       (conj Hs
                          (conj Hlow
                             (generate_stops_at_first_good_enough
                                (list (list nat)) replay replay_perm
                                "5-6player" 2 fifty_rng _ [] 0%nat
                                fifty_board (double_score fifty_board)
                                Hname fifty_samples eq_refl
                                fifty_board_valid Hs Hlow
                                fifty_before)))))))).
Defined.

(** Read as a real number the score of [fifty_board] is 50, not below the
    threshold: the loop of a program computing in real numbers would go on
    and return [low_board]. *)
Example fifty_board_real_score : score fifty_board = 50%R.
Proof.
  unfold score.
  replace (clusterPenalty fifty_board) with 0 by (vm_compute; reflexivity).
  unfold pipAdjacencyPenalty.
  match goal with
  | |- context [len ?l] => replace (len l) with 4 by (vm_compute; reflexivity)
  end.
  unfold balancePenalty.
  replace (terrain_types fifty_board)
    with ["Field"; "Forest"; "Pasture"; "Mountain"; "Hill"]
    by (vm_compute; reflexivity).
  unfold pstdev.
  replace (map (terrain_pips fifty_board)
               ["Field"; "Forest"; "Pasture"; "Mountain"; "Hill"])
    with [24; 18; 30; 6; 10] by (vm_compute; reflexivity).
  cbv zeta. unfold len, sumZ, sumR. simpl.
  match goal with
  | |- context [sqrt ?v] =>
      replace v with ((44 / 5) * (44 / 5))%R by field
  end.
  rewrite sqrt_square by lra. field.
Qed.

Example tie_boards_real_score : score tie_first_board = score tie_second_board.
Proof.
  unfold score.
  replace (clusterPenalty tie_first_board) with 0 by (vm_compute; reflexivity).
  replace (clusterPenalty tie_second_board) with 0
    by (vm_compute; reflexivity).
  unfold pipAdjacencyPenalty.
  match goal with
  | |- context [len ?l] => replace (len l) with 22 by (vm_compute; reflexivity)
  end.
  match goal with
  | |- context [IZR (len ?l)] =>
      replace (len l) with 22 by (vm_compute; reflexivity)
  end.
  unfold balancePenalty.
  replace (terrain_types tie_first_board)
    with ["Forest"; "Field"; "Hill"; "Mountain"; "Pasture"]
    by (vm_compute; reflexivity).
  replace (terrain_types tie_second_board)
    with ["Forest"; "Field"; "Hill"; "Pasture"; "Mountain"]
    by (vm_compute; reflexivity).
  unfold pstdev.
  replace (map (terrain_pips tie_first_board)
               ["Forest"; "Field"; "Hill"; "Mountain"; "Pasture"])
    with [13; 17; 7; 8; 13] by (vm_compute; reflexivity).
  replace (map (terrain_pips tie_second_board)
               ["Forest"; "Field"; "Hill"; "Pasture"; "Mountain"])
    with [17; 9; 8; 15; 9] by (vm_compute; reflexivity).
  cbv zeta. unfold len, sumZ, sumR. simpl.
  do 3 f_equal. f_equal. field.
Qed.

Lemma tie_samples :
  samples replay (CatanBoardGenerator "base") (Z.to_nat 2) tie_rng
  = Ok ([tie_first_board; tie_second_board], []).
Proof. vm_compute. reflexivity. Qed.

Lemma tie_boards_valid :
  valid tie_first_board = true /\ valid tie_second_board = true.
Proof. vm_compute. split; reflexivity. Qed.

(** In doubles the second board scores one unit in the last place less
    than the first: 51.330302779823356 against 51.330302779823363. *)
Lemma tie_boards_score :
  Double.score_board tie_second_board = Ok (double_score tie_second_board)
  /\ (double_score tie_second_board <? infinity)%float = true
  /\ (double_score tie_second_board <? double_score tie_first_board)%float
     = true
  /\ next_up (double_score tie_second_board) = double_score tie_first_board
  /\ (double_score tie_second_board <? 50)%float = false
  /\ (double_score tie_first_board <? 50)%float = false.
Proof. vm_compute. repeat split. Qed.

Lemma tie_all_high :
  forall c sc, In c [tie_first_board; tie_second_board] -> valid c = true ->
               Double.score_board c = Ok sc -> (sc <? 50)%float = false.
Proof.
  intros c sc [<- | [<- | []]] _ Hsc; apply score_board_value in Hsc;
    subst sc; vm_compute; reflexivity.
Qed.

Lemma tie_first_minimum :
  forall j c sc,
    nth_error [tie_first_board; tie_second_board] j = Some c ->
    valid c = true -> Double.score_board c = Ok sc -> is_nan sc = false ->
    (double_score tie_second_board <=? sc)%float = true
    /\ ((j < 1)%nat -> (double_score tie_second_board <? sc)%float = true).
Proof.
  intros j c sc Hc _ Hsc _. apply score_board_value in Hsc. subst sc.
  destruct j as [| [| j]]; simpl in Hc.
  - inversion Hc; subst c. split; [| intros _]; vm_compute; reflexivity.
  - inversion Hc; subst c. split; [vm_compute; reflexivity | lia].
  - destruct j; discriminate.
Qed.

Lemma generate_returns_first_minimum_witness :
  (forall A (l : list A) g, Permutation (fst (replay A l g)) l)
  /\ In "base" profile_names
  /\ samples replay (CatanBoardGenerator "base") (Z.to_nat 2) tie_rng
     = Ok ([tie_first_board; tie_second_board], [])
  /\ nth_error [tie_first_board; tie_second_board] 1 = Some tie_second_board
  /\ valid tie_second_board = true
  /\ (double_score tie_second_board <? double_score tie_first_board)%float
     = true
  /\ generate replay "base" 2 tie_rng = Ok (tie_second_board, []).
Proof.
  assert (Hname : In "base" profile_names) by in_names.
  destruct tie_boards_score as (Hs & Hfin & Hlt & _).
  exact (conj replay_perm
           (conj Hname
              (conj tie_samples
                 (conj eq_refl
                    (conj (proj2 tie_boards_valid)
                       (conj Hlt
                          (generate_returns_first_minimum
                             (list (list nat)) replay replay_perm "base" 2
                             tie_rng _ [] 1%nat tie_second_board
                             (double_score tie_second_board)
                             Hname tie_samples tie_all_high
                             eq_refl (proj2 tie_boards_valid) Hs Hfin
                             tie_first_minimum))))))).
Defined.

(** On the platform [compensated] the score of [fifty_board] is 50.0 and
    the two boards of [tie_rng] score the same: from the same draws
    [generate] returns the other board of each run. *)
Example generate_depends_on_platform :
  generate (P := left_to_right) replay "5-6player" 2 fifty_rng
  = Ok (fifty_board, tl (tl fifty_rng))
  /\ generate (P := compensated) replay "5-6player" 2 fifty_rng
     = Ok (low_board, [])
  /\ generate (P := left_to_right) replay "base" 2 tie_rng
     = Ok (tie_second_board, [])
  /\ generate (P := compensated) replay "base" 2 tie_rng
     = Ok (tie_first_board, []).
Proof. vm_compute. repeat split. Qed.

(** ** A validated board shows no warning *)

(** X15: on a profile and on every platform, when one of the
    [max_attempts] candidates passes both hard constraints and has a score
    below [float('inf')], [display_statistics] on the board [generate]
    returns finds no violation and no Desert on the edge: both lines it
    prints say "Good". *)
Theorem validated_board_shows_no_warning
  (P : Platform)
  (G : Type) (shuffle : forall A : Type, list A -> G -> list A * G)
  (name : string) (max_attempts : Z) (g : G) (cs : list Board) (g1 : G) :
  (forall A (l : list A) g, Permutation (fst (shuffle A l g)) l) ->
  In name profile_names ->
  samples shuffle (CatanBoardGenerator name) (Z.to_nat max_attempts) g
  = Ok (cs, g1) ->
  (exists c sc, In c cs /\ valid c = true
                /\ Double.score_board c = Ok sc
                /\ (sc <? infinity)%float = true) ->
  exists b g',
    generate shuffle name max_attempts g = Ok (b, g')
    /\ statistics_violations b = Ok []
    /\ desert_on_edge b = false.
Proof.
  intros Hperm Hname Hall Hc.
  destruct (generate_valid G shuffle Hperm name max_attempts g cs g1
              Hname Hall Hc) as (b & g' & Hgen & Hin & Ha & Hd).
  exists b, g'. split; [assumption |].
  destruct (profile_pools name Hname) as (ts & ns & Hfit & _).
  destruct (samples_sampled G shuffle _ _ _ _ _ Hall b Hin)
    as (g0 & g2 & Hs).
  pose proof (profile_sample_dealt G shuffle Hperm name ts ns g0 b g2
                Hfit Hs) as Hdealt.
  pose proof (well_dealt_indexed ts ns b Hdealt) as Hidx.
  destruct (statistics_checks b Hidx) as [(vs & Hvs & Hiff) Hedge].
  split.
  - rewrite Hvs. f_equal. now apply Hiff.
  - rewrite Hedge, Hd. reflexivity.
Qed.

Lemma validated_board_shows_no_warning_witness :
  (forall A (l : list A) g, Permutation (fst (replay A l g)) l)
  /\ In "base" profile_names
  /\ samples replay (CatanBoardGenerator "base") (Z.to_nat 3) example_rng
     = Ok ([pool_order_board; example_board; pool_order_board], [])
  /\ (exists c sc, In c [pool_order_board; example_board; pool_order_board]
                   /\ valid c = true
                   /\ Double.score_board c = Ok sc
                   /\ (sc <? infinity)%float = true)
  /\ exists b g',
       generate replay "base" 3 example_rng = Ok (b, g')
       /\ statistics_violations b = Ok []
       /\ desert_on_edge b = false.
Proof.
  assert (Hname : In "base" profile_names) by in_names.
  exact (conj replay_perm
           (conj Hname
              (conj example_samples
                 (conj example_candidate
                    (validated_board_shows_no_warning left_to_right
                       (list (list nat)) replay "base" 3 example_rng _ _
                       replay_perm Hname example_samples
                       example_candidate))))).
Defined.
